(** * MCP client: tool registry, name resolution, dispatch and the bounded
      tool-use loop

    A shallow embedding of the multi-server [MCPClient] class (the client with
    [findToolByName], [connectToMultipleServers], [callTool], [processQuery]
    and [chatLoop]) together with the properties of its registry, resolver,
    dispatcher and query loop.

    Modelling conventions.
    - JavaScript strings are [string]s (sequences of 8-bit characters); tool
      names, provider ids and messages are taken to be ASCII, so that
      [toLowerCase] only moves ['A'..'Z'].
    - [Map<string, Client>] is a [gmap string Client].
    - The remote model and the tool providers are oracles over an abstract
      [World]: a call takes the world and returns an outcome and a new world;
      a thrown [Error] is the [inl] of its message.
    - [console.log] / [console.error] output is not modelled. *)

From Stdlib Require Import ZArith Ascii String DecimalString.
From stdpp Require Import base option list strings gmap.

Local Open Scope Z_scope.

(** ** JavaScript string primitives used by the client *)

Module Js.

Definition is_upper (a : ascii) : bool :=
  let n := N_of_ascii a in (65 <=? n)%N && (n <=? 90)%N.

Definition lower_char (a : ascii) : ascii :=
  if is_upper a then ascii_of_N (N_of_ascii a + 32) else a.

(** [s.toLowerCase()] *)
Fixpoint toLowerCase (s : string) : string :=
  match s with
  | EmptyString => EmptyString
  | String a r => String (lower_char a) (toLowerCase r)
  end.

(** [s.startsWith(p)] *)
Fixpoint startsWith (s p : string) {struct p} : bool :=
  match p, s with
  | EmptyString, _ => true
  | String _ _, EmptyString => false
  | String b p', String a s' => Ascii.eqb a b && startsWith s' p'
  end.

(** [s.includes(p)] *)
Fixpoint includes (s p : string) : bool :=
  startsWith s p ||
  match s with
  | EmptyString => false
  | String _ r => includes r p
  end.

(** [s.indexOf(c)] for a one-character pattern; [-1] when absent. *)
Fixpoint indexOf (s : string) (c : ascii) : Z :=
  match s with
  | EmptyString => -1
  | String a r =>
      if Ascii.eqb a c then 0
      else let i := indexOf r c in if i =? -1 then -1 else i + 1
  end.

Fixpoint take (n : nat) (s : string) : string :=
  match n, s with
  | S n', String a r => String a (take n' r)
  | _, _ => EmptyString
  end.

Fixpoint drop (n : nat) (s : string) : string :=
  match n, s with
  | S n', String _ r => drop n' r
  | _, _ => s
  end.

Definition clamp (i : Z) (s : string) : nat :=
  Nat.min (Z.to_nat i) (String.length s).

(** [s.substring(i, j)]: both indices are clamped to [0..length] and swapped
    when [i > j]. *)
Definition substring (s : string) (i j : Z) : string :=
  let a := clamp i s in
  let b := clamp j s in
  take (Nat.max a b - Nat.min a b) (drop (Nat.min a b) s).

(** [s.substring(i)] *)
Definition substring_from (s : string) (i : Z) : string :=
  drop (clamp i s) s.

(** [s.split(c)] for a one-character separator; never the empty array. *)
Fixpoint split (s : string) (c : ascii) : list string :=
  match s with
  | EmptyString => [EmptyString]
  | String a r =>
      if Ascii.eqb a c then EmptyString :: split r c
      else match split r c with
           | h :: t => String a h :: t
           | [] => [String a EmptyString]
           end
  end.

(** [parts[parts.length - 1]] and [parts.pop()]: [None] is [undefined]. *)
Definition pop (parts : list string) : option string := last parts.

End Js.

(** More primitives: suffix test, truthiness, number printing. *)

Module JsMore.

(** [s.endsWith(p)] *)
Definition endsWith (s p : string) : bool :=
  (String.length p <=? String.length s)%nat &&
  String.eqb (Js.drop (String.length s - String.length p) s) p.

(** A value used as a condition: [undefined] and the empty string are
    falsy. *)
Definition truthy (v : option string) : bool :=
  match v with Some (String _ _) => true | _ => false end.

(** [`${n}`] for a non-negative integer. *)
Definition show_nat (n : nat) : string := NilEmpty.string_of_uint (Nat.to_uint n).

End JsMore.

(** The line feed of the ["\n"] escapes. *)
Definition nl : string := String (ascii_of_N 10) EmptyString.

(** The provider separator of the effective names. *)
Definition sep : ascii := "_"%char.
Definition sep_s : string := String sep EmptyString.

(** ** Data model *)

Section Client.

(** JSON values (tool arguments, input schemas, structured tool results) and
    [JSON.stringify]. *)
Context {Json : Type} (JSON_stringify : Json -> string).

(** The state of everything outside the client process: the model endpoint
    and the tool providers. *)
Context {World : Type}.

(** [Tool] of the model SDK: an entry of the catalog [allTools]. *)
Record Tool := {
  name : string;
  description : option string;
  input_schema : Json;
}.

(** A tool as a provider lists it. *)
Record McpTool := {
  mcp_name : string;
  mcp_description : option string;
  inputSchema : Json;
}.

(** What [client.callTool] resolves to; [content] is a string or a
    structured value. *)
Record CallToolResult := { content : string + Json }.

(** A connected provider. [client_callTool] is [client.callTool({name,
    arguments})]: [inl message] is a rejected call. *)
Record Client := {
  client_callTool : string -> Json -> World -> (string + CallToolResult) * World;
}.

Inductive Transport :=
| SSEClientTransport (url : string)
| StdioClientTransport (command : string) (args : list string).

Inductive Mode := single | multi.

Inductive Role := user | assistant.

(** Content blocks the client writes into the history. [is_error] is absent
    ([None]) on a successful result. *)
Inductive BlockParam :=
| tool_use (id toolName : string) (input : Json)
| tool_result (tool_use_id : string) (text : string) (is_error : option bool).

Inductive MessageContent :=
| Text (s : string)
| Blocks (bs : list BlockParam).

(** [MessageParam]: one turn of [conversationHistory]. *)
Record MessageParam := { role : Role; msg_content : MessageContent }.

(** Content blocks of a model response; the loop looks at ["text"] and
    ["tool_use"] and skips every other type. *)
Inductive ContentBlock :=
| TextBlock (text : string)
| ToolUseBlock (id toolName : string) (input : Json)
| OtherBlock.

(** [this.anthropic.messages.create({messages, tools})]; [tools] is [None]
    for [undefined]. *)
Context (messages_create :
  list MessageParam -> option (list Tool) -> World ->
  (string + list ContentBlock) * World).

(** The fields of [MCPClient] ([anthropic] is the oracle above). *)
Record MCPClient := {
  mcpClients : gmap string Client;
  transports : gmap string Transport;
  allTools : list Tool;
  conversationHistory : list MessageParam;
  mode : Mode;
}.

Definition new_MCPClient : MCPClient :=
  {| mcpClients := ∅; transports := ∅; allTools := [];
     conversationHistory := []; mode := single |}.

Definition set_conversationHistory (h : list MessageParam) (c : MCPClient) : MCPClient :=
  {| mcpClients := mcpClients c; transports := transports c;
     allTools := allTools c; conversationHistory := h; mode := mode c |}.

(** [this.conversationHistory.push(m)] *)
Definition push (m : MessageParam) (c : MCPClient) : MCPClient :=
  set_conversationHistory (conversationHistory c ++ [m]) c.

(** ** findToolByName *)

Definition exact_pred (baseName : string) (tool : Tool) : bool :=
  String.eqb (name tool) baseName.

Definition suffix_pred (baseName : string) (tool : Tool) : bool :=
  let parts := Js.split (name tool) sep in
  match Js.pop parts with
  | Some lastPart => String.eqb lastPart baseName
  | None => false
  end.

Definition flexible_pred (baseName : string) (tool : Tool) : bool :=
  Js.includes (Js.toLowerCase (name tool)) (Js.toLowerCase baseName) ||
  match Js.pop (Js.split (name tool) sep) with
  | Some lastPart =>
      Js.includes (Js.toLowerCase baseName) (Js.toLowerCase lastPart)
  | None => false
  end.

Definition findToolByName (c : MCPClient) (baseName : string) : option string :=
  match find (exact_pred baseName) (allTools c) with
  | Some exactMatch => Some (name exactMatch)
  | None =>
  match find (suffix_pred baseName) (allTools c) with
  | Some suffixMatch => Some (name suffixMatch)
  | None =>
  match find (flexible_pred baseName) (allTools c) with
  | Some flexibleMatch => Some (name flexibleMatch)
  | None => None
  end end end.

(** ** connectToServer, connectToMultipleServers

    Choosing the transport, spawning or dialling the provider and listing
    its tools happen outside the registry; their outcome is the argument
    [conn]: [inl message] when that phase throws, otherwise the connected
    client, its transport and [toolsResult.tools]. *)

Definition Connection : Type := Client * Transport * list McpTool.

Definition as_Tool (tool : McpTool) : Tool :=
  {| name := mcp_name tool; description := mcp_description tool;
     input_schema := inputSchema tool |}.

Definition set_mode (m : Mode) (c : MCPClient) : MCPClient :=
  {| mcpClients := mcpClients c; transports := transports c;
     allTools := allTools c; conversationHistory := conversationHistory c;
     mode := m |}.

Definition connectToServer (conn : string + Connection) (c : MCPClient)
  : option string * MCPClient :=
  let c := set_mode single c in
  match conn with
  | inl message => (Some message, c)
  | inr (client, transport, listed) =>
      (None,
       {| mcpClients := <["default" := client]> (mcpClients c);
          transports := <["default" := transport]> (transports c);
          allTools := map as_Tool listed;
          conversationHistory := conversationHistory c;
          mode := mode c |})
  end.

Definition prefixed (serverType : string) (tool : Tool) : Tool :=
  {| name := serverType +:+ sep_s +:+ name tool;
     description := description tool;
     input_schema := input_schema tool |}.

Definition connectToMultipleServers (serverType : string)
    (conn : string + Connection) (c : MCPClient) : option string * MCPClient :=
  let c := set_mode multi c in
  match conn with
  | inl message => (Some message, c)
  | inr (client, transport, listed) =>
      let tools := map as_Tool listed in
      let prefixedTools := map (prefixed serverType) tools in
      (None,
       {| mcpClients := <[serverType := client]> (mcpClients c);
          transports := <[serverType := transport]> (transports c);
          allTools := allTools c ++ prefixedTools;
          conversationHistory := conversationHistory c;
          mode := mode c |})
  end.

(** ** callTool *)

Definition callTool (c : MCPClient) (toolName : string) (args : Json) (w : World)
  : (string + CallToolResult) * World :=
  match mode c with
  | single =>
      match mcpClients c !! "default" with
      | None => (inl "No client connected", w)
      | Some client => client_callTool client toolName args w
      end
  | multi =>
      let firstUnderscoreIndex := Js.indexOf toolName sep in
      if firstUnderscoreIndex =? -1 then
        (inl ("Invalid tool name format: " +:+ toolName), w)
      else
        let serverType := Js.substring toolName 0 firstUnderscoreIndex in
        let actualToolName := Js.substring_from toolName (firstUnderscoreIndex + 1) in
        match mcpClients c !! serverType with
        | None => (inl ("No client found for server type: " +:+ serverType), w)
        | Some client => client_callTool client actualToolName args w
        end
  end.

(** ** processQuery *)

(** The local variables of [processQuery], with [this] and the world. *)
Record Frame := {
  finalResponse : string;
  iteration : nat;
  toolUseDetected : bool;
  this : MCPClient;
  world : World;
}.

Definition maxIterations : nat := 3.

Definition user_text (query : string) : MessageParam :=
  {| role := user; msg_content := Text query |}.

Definition assistant_text (text : string) : MessageParam :=
  {| role := assistant; msg_content := Text text |}.

Definition assistant_tool_use (id toolName : string) (input : Json) : MessageParam :=
  {| role := assistant; msg_content := Blocks [tool_use id toolName input] |}.

Definition user_tool_result (id text : string) (is_error : option bool) : MessageParam :=
  {| role := user; msg_content := Blocks [tool_result id text is_error] |}.

(** One pass of the body of [for (const content of response.content)].
    [!fullToolName] holds for [undefined] and for the empty string; an
    exception of [callTool] is caught and only its message is used. *)
Definition handle_content (block : ContentBlock) (f : Frame) : Frame :=
  match block with
  | TextBlock text =>
      {| finalResponse := finalResponse f +:+ text +:+ nl;
         iteration := iteration f;
         toolUseDetected := toolUseDetected f;
         this := push (assistant_text text) (this f);
         world := world f |}
  | ToolUseBlock id toolName toolArgs =>
      match findToolByName (this f) toolName with
      | Some (String _ _ as fullToolName) =>
          let this1 := push (assistant_tool_use id toolName toolArgs) (this f) in
          match callTool this1 fullToolName toolArgs (world f) with
          | (inr result, w) =>
              let toolResultContent :=
                match content result with
                | inl s => s
                | inr v => JSON_stringify v
                end in
              {| finalResponse :=
                   finalResponse f +:+ "[Used tool: " +:+ fullToolName +:+ "]" +:+ nl;
                 iteration := iteration f;
                 toolUseDetected := true;
                 this := push (user_tool_result id toolResultContent None) this1;
                 world := w |}
          | (inl message, w) =>
              {| finalResponse :=
                   finalResponse f +:+ "[Tool error: " +:+ message +:+ "]" +:+ nl;
                 iteration := iteration f;
                 toolUseDetected := true;
                 this := push (user_tool_result id ("Error: " +:+ message) (Some true)) this1;
                 world := w |}
          end
      | _ =>
          {| finalResponse :=
               finalResponse f +:+ "[Error: Tool " +:+ toolName +:+ " not found]" +:+ nl;
             iteration := iteration f;
             toolUseDetected := true;
             this := push (user_tool_result id
                             ("Error: Tool " +:+ toolName +:+ " not found") (Some true))
                          (this f);
             world := world f |}
      end
  | OtherBlock => f
  end.

(** [for (const content of response.content)] *)
Fixpoint for_content (response : list ContentBlock) (f : Frame) : Frame :=
  match response with
  | [] => f
  | block :: rest => for_content rest (handle_content block f)
  end.

Inductive Completion :=
| Finished (f : Frame)
| Threw (message : string) (f : Frame).

Definition frame_of (r : Completion) : Frame :=
  match r with Finished f => f | Threw _ f => f end.

(** Start of a round: [iteration++], the model call's world, and a fresh
    [toolUseDetected]. *)
Definition enter_round (w : World) (f : Frame) : Frame :=
  {| finalResponse := finalResponse f; iteration := S (iteration f);
     toolUseDetected := false; this := this f; world := w |}.

Definition add_notice (f : Frame) : Frame :=
  {| finalResponse := finalResponse f +:+ "Maximum tool iterations reached.";
     iteration := iteration f; toolUseDetected := toolUseDetected f;
     this := this f; world := world f |}.

Definition tools_param (tools : list Tool) : option (list Tool) :=
  if (0 <? length tools)%nat then Some tools else None.

(** [while (iteration < maxIterations)]; [None] is out of fuel. A rejected
    model call leaves the loop with [Threw]. *)
Fixpoint while_loop (fuel : nat) (f : Frame) : option Completion :=
  if (iteration f <? maxIterations)%nat then
    match fuel with
    | O => None
    | S fuel' =>
        match messages_create (conversationHistory (this f))
                              (tools_param (allTools (this f))) (world f) with
        | (inl message, w) => Some (Threw message (enter_round w f))
        | (inr response, w) =>
            let f1 := for_content response (enter_round w f) in
            if negb (toolUseDetected f1) then Some (Finished f1)
            else
              let f2 := if (iteration f1 =? maxIterations)%nat
                        then add_notice f1 else f1 in
              while_loop fuel' f2
        end
    end
  else Some (Finished f).

Definition start_frame (query : string) (c : MCPClient) (w : World) : Frame :=
  {| finalResponse := EmptyString; iteration := 0; toolUseDetected := false;
     this := push (user_text query) c; world := w |}.

(** [processQuery(query)]: the returned string, the client and the world
    afterwards. *)
Definition processQuery (query : string) (c : MCPClient) (w : World)
  : option (string * MCPClient * World) :=
  match while_loop maxIterations (start_frame query c w) with
  | Some (Finished f) => Some (finalResponse f, this f, world f)
  | Some (Threw message f) =>
      Some ("Sorry, I encountered an error: " +:+ message, this f, world f)
  | None => None
  end.

(** ** showHistorySummary *)

(** [text.substring(0, 50) + (text.length > 50 ? "..." : '')] *)
Definition preview (text : string) : string :=
  Js.substring text 0 50 +:+
  (if (50 <? String.length text)%nat then "..." else EmptyString).

Definition role_label (r : Role) : string :=
  match r with user => "User" | assistant => "Assistant" end.

(** [contentPreview] of one turn; [None] is the [TypeError] of reading
    [firstItem.type] on an empty array. *)
Definition contentPreview (msg : MessageParam) : option string :=
  match msg_content msg with
  | Text s => Some (preview s)
  | Blocks [] => None
  | Blocks (tool_use _ toolName _ :: _) => Some ("Tool Call: " +:+ toolName)
  | Blocks (tool_result _ _ _ :: _) => Some "Tool Result"
  end.

(** The [forEach] of [showHistorySummary] from position [index]: the lines
    printed, and whether it threw. *)
Fixpoint summary_lines (index : nat) (history : list MessageParam)
  : list string * bool :=
  match history with
  | [] => ([], false)
  | msg :: rest =>
      match contentPreview msg with
      | None => ([], true)
      | Some contentPreview =>
          let (lines, threw) := summary_lines (S index) rest in
          ((JsMore.show_nat (index + 1) +:+ ". " +:+ role_label (role msg) +:+ ": "
            +:+ contentPreview) :: lines, threw)
      end
  end.

(** [showHistorySummary()]: one entry per [console.log] call. *)
Definition showHistorySummary (c : MCPClient) : list string * bool :=
  let header := nl +:+ "Conversation History (Summary):" in
  if (length (conversationHistory c) =? 0)%nat then
    ([header; "No history yet."], false)
  else
    let (lines, threw) := summary_lines 0 (conversationHistory c) in
    (header :: lines, threw).

(** Every array content of the history has a first item. *)
Definition displayable (history : list MessageParam) : Prop :=
  Forall (fun msg => msg_content msg <> Blocks []) history.

(** ** chatLoop *)

(** How one pass of the loop body ends: [Break] is the [break] of [quit],
    [Caught] an exception that reaches the [catch] of [chatLoop], which also
    leaves the loop. *)
Inductive Control := Break | Continue | Caught.

(** One pass of the body of [while (true)] for the line [message] read from
    the terminal. [showHistorySummary] is the only command that can throw;
    [showCompleteHistory] and the [tools] listing iterate without reading a
    first item. *)
Definition chatLoop_body (message : string) (c : MCPClient) (w : World)
  : option (Control * MCPClient * World) :=
  let cmd := Js.toLowerCase message in
  if String.eqb cmd "quit" then Some (Break, c, w)
  else if String.eqb cmd "clear" then
    Some (Continue, set_conversationHistory [] c, w)
  else if String.eqb cmd "tools" then Some (Continue, c, w)
  else if String.eqb cmd "mode" then Some (Continue, c, w)
  else if String.eqb cmd "history" then
    if (showHistorySummary c).2 then Some (Caught, c, w)
    else Some (Continue, c, w)
  else if String.eqb cmd "history_full" then Some (Continue, c, w)
  else
    match processQuery message c w with
    | Some (_, c', w') => Some (Continue, c', w')
    | None => None
    end.

(** ** Notions used to state the properties *)

(** [content.type === "tool_use"] *)
Definition is_tool_use (block : ContentBlock) : bool :=
  match block with ToolUseBlock _ _ _ => true | _ => false end.

(** The frame after one round: the model answered [response] and left the
    world [w]. *)
Definition after_round (response : list ContentBlock) (w : World) (f : Frame) : Frame :=
  for_content response (enter_round w f).

(** [continues f f']: the round started in [f] used a tool below the
    iteration cap, so the loop goes on to another round from [f']. *)
Inductive continues (f : Frame) : Frame -> Prop :=
| continues_round response w :
    (iteration f < maxIterations)%nat ->
    messages_create (conversationHistory (this f))
                    (tools_param (allTools (this f))) (world f) = (inr response, w) ->
    toolUseDetected (after_round response w f) = true ->
    iteration (after_round response w f) <> maxIterations ->
    continues f (after_round response w f).

(** [segment] is the last [sep]-delimited segment of [s]. *)
Definition final_segment (s segment : string) : Prop :=
  Js.indexOf segment sep = -1 /\
  (s = segment \/ exists pre, s = pre +:+ sep_s +:+ segment).

(** [p] occurs in [s]. *)
Definition substring_of (p s : string) : Prop :=
  exists pre post, s = pre +:+ p +:+ post.

(** [main] in multi-server mode: one [connectToMultipleServers] per provider,
    in order. *)
Definition connect_all (providers : list (string * Connection)) (c : MCPClient)
  : MCPClient :=
  fold_left (fun c r => (connectToMultipleServers r.1 (inr r.2) c).2) providers c.

(** The local tool names a provider lists. *)
Definition local_names (conn : Connection) : list string := map mcp_name conn.2.

(** What [processQuery] returns for a completion of the loop: the buffer, or
    the text of the [catch] block. *)
Definition answer (r : Completion) : string :=
  match r with
  | Finished f => finalResponse f
  | Threw message _ => "Sorry, I encountered an error: " +:+ message
  end.

(** The ids of the [tool_use] turns and of the [tool_result] turns of a
    history, in order. *)
Definition request_ids (m : MessageParam) : list string :=
  match msg_content m with
  | Blocks bs =>
      flat_map (fun b => match b with tool_use id _ _ => [id] | _ => [] end) bs
  | Text _ => []
  end.

Definition outcome_ids (m : MessageParam) : list string :=
  match msg_content m with
  | Blocks bs =>
      flat_map (fun b => match b with tool_result id _ _ => [id] | _ => [] end) bs
  | Text _ => []
  end.

End Client.

(** ** A concrete setting: JSON as its text, the world as the number of model
    calls made so far *)

Module Demo.

Abbreviation Json := string.
Abbreviation World := nat.

Definition stringify (v : Json) : string := v.

(** A provider that answers every call with a text. *)
Definition echo : @Client Json World :=
  {| client_callTool := fun toolName args w =>
       (inr {| content := inl ("ok " +:+ toolName) |}, w) |}.

Definition stdio : Transport := StdioClientTransport "npx" [].

Definition listed (n : string) : @McpTool Json :=
  {| mcp_name := n; mcp_description := None; inputSchema := "{}" |}.

Definition provider (names : list string) : @Connection Json World :=
  (echo, stdio, map listed names).

(** The model endpoint replays [script]: call number [w] gets its [w]-th
    entry, and a text-free empty response once the script is over. *)
Definition scripted (script : list (string + list (@ContentBlock Json)))
    (messages : list (@MessageParam Json)) (tools : option (list (@Tool Json)))
    (w : World) : (string + list (@ContentBlock Json)) * World :=
  (nth w script (inr []), S w).

(** [--multi] with the two stock providers. *)
Definition two_servers : @MCPClient Json World :=
  connect_all [("filesystem", provider ["write_file"; "read_file"]);
               ("github", provider ["create_repository"])] new_MCPClient.

(** Two providers whose prefixed names collide. *)
Definition colliding : list (string * @Connection Json World) :=
  [("a", provider ["b_c"]); ("a_b", provider ["c"])].

(** Providers whose local names are separator-free and end differently. *)
Definition plain : list (string * @Connection Json World) :=
  [("a", provider ["x_write"]); ("fs", provider ["read"])].

(** A local name ending in another provider's tool name. *)
Definition shadowed : @MCPClient Json World :=
  connect_all [("a", provider ["x_read"]); ("fs", provider ["read"])] new_MCPClient.

(** A single-server connection followed by a multi-server one: the catalog
    keeps the unprefixed ["ping"] while the mode is [multi]. *)
Definition mixed : @MCPClient Json World :=
  (connectToMultipleServers "fs" (inr (provider ["read"]))
     (connectToServer (inr (provider ["ping"])) new_MCPClient).2).2.

Definition create_repository : @Tool Json :=
  {| name := "github_create_repository"; description := None;
     input_schema := "{}" |}.

Definition frame (c : @MCPClient Json World) : @Frame Json World :=
  {| finalResponse := EmptyString; iteration := 1; toolUseDetected := false;
     this := c; world := 1%nat |}.

Definition asks (id toolName : string) : @ContentBlock Json :=
  ToolUseBlock id toolName "{}".

(** The model asks for an unregistered tool, then answers in text. *)
Definition unknown_tool_script : list (string + list (@ContentBlock Json)) :=
  [inr [asks "toolu_1" "delete_universe"]; inr [TextBlock "done"]].

(** The model asks for a tool in every round. *)
Definition persistent_script : list (string + list (@ContentBlock Json)) :=
  [inr [asks "t1" "write_file"]; inr [asks "t2" "read_file"];
   inr [asks "t3" "create_repository"]; inr [asks "t4" "write_file"]].

(** The endpoint rejects the second call. *)
Definition failing_script : list (string + list (@ContentBlock Json)) :=
  [inr [TextBlock "let me see"; asks "t1" "write_file"]; inl "overloaded"].

End Demo.

(** ** Launching a provider: the transport choice of the connect functions *)

Section Launch.

(** [new URL(target)]: [inl message] is the [TypeError] of an invalid URL. *)
Context {URL : Type} (new_URL : string -> string + URL).

(** The argument of [new StdioClientTransport(...)]; [env] is [None] when the
    field is left out. *)
Record StdioServerParameters := {
  command : string;
  args : list string;
  env : option (gmap string string);
}.

(** What a connect function is about to open. *)
Inductive Launch :=
| Remote (baseUrl : URL)
| Local (params : StdioServerParameters).

Definition is_remote (target : string) : bool :=
  Js.startsWith target "http://" || Js.startsWith target "https://".

(** [process.platform === "win32" ? "python" : "python3"] *)
Definition python_command (platform : string) : string :=
  if String.eqb platform "win32" then "python" else "python3".

(** The script branch shared by the connect functions: [target] must end in
    [.js] or [.py]; [rejected] is the message thrown otherwise. *)
Definition script_params (rejected platform target : string)
    (env : option (gmap string string)) : string + StdioServerParameters :=
  let isJs := JsMore.endsWith target ".js" in
  let isPy := JsMore.endsWith target ".py" in
  if negb isJs && negb isPy then inl rejected
  else
    let command := if isPy then python_command platform else "node" in
    inr {| command := command; args := [target]; env := env |}.

Definition script_launch (rejected platform target : string)
    (env : option (gmap string string)) : string + Launch :=
  match script_params rejected platform target env with
  | inl message => inl message
  | inr params => inr (Local params)
  end.

Definition remote_launch (target : string) : string + Launch :=
  match new_URL target with
  | inl message => inl message
  | inr baseUrl => inr (Remote baseUrl)
  end.

(** The transport choice of [connectToServer(target)]. *)
Definition server_launch (platform target : string) : string + Launch :=
  if is_remote target then remote_launch target
  else script_launch "Server must be .js or .py file for local mode"
                     platform target None.

Definition default_allowed_paths : string :=
  "C:\Users\andre\Desktop\MCP_PROYECT\tests".

(** The transport choice of [connectToMultipleServers(serverType, target)];
    [process_env] is [process.env], and the child environment is
    [{...process.env, ...env}]. *)
Definition multi_launch (platform : string) (process_env : gmap string string)
    (serverType : string) (target : option string) : string + Launch :=
  if JsMore.truthy target && is_remote (default EmptyString target) then
    remote_launch (default EmptyString target)
  else if String.eqb serverType "filesystem" then
    let allowedPaths :=
      if JsMore.truthy (process_env !! "FILESYSTEM_ALLOWED_PATHS")
      then default EmptyString (process_env !! "FILESYSTEM_ALLOWED_PATHS")
      else default_allowed_paths in
    inr (Local {| command := "npx";
                  args := "@modelcontextprotocol/server-filesystem"
                          :: Js.split allowedPaths ";"%char;
                  env := Some (∅ ∪ process_env) |})
  else if String.eqb serverType "github" then
    let githubToken := process_env !! "GITHUB_TOKEN" in
    if negb (JsMore.truthy githubToken) then
      inl "GITHUB_TOKEN environment variable is required for GitHub server"
    else
      inr (Local {| command := "npx";
                    args := ["@modelcontextprotocol/server-github"];
                    env := Some ({["GITHUB_PERSONAL_ACCESS_TOKEN" :=
                                     default EmptyString githubToken]}
                                 ∪ process_env) |})
  else if JsMore.truthy target then
    script_launch "Server must be .js or .py file for custom servers"
                  platform (default EmptyString target) (Some (∅ ∪ process_env))
  else inl ("No target specified for server type: " +:+ serverType).

(** The transport choice of the single-server client's
    [connectToServer(serverScriptPath)]: scripts only. *)
Definition simple_launch (platform serverScriptPath : string)
  : string + StdioServerParameters :=
  script_params "Server script must be a .js or .py file"
                platform serverScriptPath None.

End Launch.

Section Connect.

Context {Json World URL : Type} (new_URL : string -> string + URL).

(** [client.connect(transport)] followed by [client.listTools()]: either may
    throw. *)
Context (open : @Launch URL -> World -> (string + @Connection Json World) * World).

(** [connectToServer(target)], transport choice included. *)
Definition connectToServer_target (platform target : string)
    (c : @MCPClient Json World) (w : World) : option string * MCPClient * World :=
  match server_launch new_URL platform target with
  | inl message => (connectToServer (inl message) c, w)
  | inr launch => let (conn, w') := open launch w in (connectToServer conn c, w')
  end.

(** [connectToMultipleServers(serverType, target)], transport choice
    included. *)
Definition connectToMultipleServers_target (platform : string)
    (process_env : gmap string string) (serverType : string) (target : option string)
    (c : @MCPClient Json World) (w : World) : option string * MCPClient * World :=
  match multi_launch new_URL platform process_env serverType target with
  | inl message => (connectToMultipleServers serverType (inl message) c, w)
  | inr launch =>
      let (conn, w') := open launch w in
      (connectToMultipleServers serverType conn c, w')
  end.

End Connect.

(** ** chatLoop over the lines typed so far *)

Section Chat.

Context {Json World : Type} (JSON_stringify : Json -> string).
Context (messages_create :
  list (@MessageParam Json) -> option (list (@Tool Json)) -> World ->
  (string + list (@ContentBlock Json)) * World).

(** [while (true)] of [chatLoop] fed with [lines]: it ends with [Break] after
    [quit], with [Caught] after an exception, and with [Continue] when it is
    waiting for the next line. *)
Fixpoint chatLoop (lines : list string) (c : @MCPClient Json World) (w : World)
  : option (Control * MCPClient * World) :=
  match lines with
  | [] => Some (Continue, c, w)
  | message :: rest =>
      match chatLoop_body JSON_stringify messages_create message c w with
      | Some (Break, c', w') => Some (Break, c', w')
      | Some (Caught, c', w') => Some (Caught, c', w')
      | Some (Continue, c', w') => chatLoop rest c' w'
      | None => None
      end
  end.

(** The ids of the [tool_use] blocks of a response, in order. *)
Definition tool_use_ids (response : list (@ContentBlock Json)) : list string :=
  flat_map (fun block => match block with
                         | ToolUseBlock id _ _ => [id]
                         | _ => []
                         end) response.

End Chat.

(** ** The single-server client (index.ts)

    Its [MCPClient] has one provider handle [mcp], no name resolution and no
    [try] around the tool call: a rejected tool call leaves [processQuery]
    through the outer [catch]. *)

Module Simple.

Section Simple.

Context {Json World : Type} (JSON_stringify : Json -> string).
Context (messages_create :
  list (@MessageParam Json) -> option (list (@Tool Json)) -> World ->
  (string + list (@ContentBlock Json)) * World).

Record MCPClient := {
  mcp : @Client Json World;
  transport : option Transport;
  tools : list (@Tool Json);
  conversationHistory : list (@MessageParam Json);
}.

Definition push (m : @MessageParam Json) (c : MCPClient) : MCPClient :=
  {| mcp := mcp c; transport := transport c; tools := tools c;
     conversationHistory := conversationHistory c ++ [m] |}.

(** The local variables of [processQuery], with [this] and the world. *)
Record Frame := {
  finalResponse : string;
  iteration : nat;
  toolUseDetected : bool;
  this : MCPClient;
  world : World;
}.

(** A statement sequence either completes or throws, in both cases with the
    variables as they are then. *)
Inductive Step :=
| Ok (f : Frame)
| Raise (message : string) (f : Frame).

(** One pass of the body of [for (const content of response.content)]. *)
Definition handle_content (block : @ContentBlock Json) (f : Frame) : Step :=
  match block with
  | TextBlock text =>
      Ok {| finalResponse := finalResponse f +:+ text +:+ nl;
            iteration := iteration f;
            toolUseDetected := toolUseDetected f;
            this := push (assistant_text text) (this f);
            world := world f |}
  | ToolUseBlock id toolName toolArgs =>
      let this1 := push (assistant_tool_use id toolName toolArgs) (this f) in
      match client_callTool (mcp this1) toolName toolArgs (world f) with
      | (inl message, w) =>
          Raise message
            {| finalResponse := finalResponse f; iteration := iteration f;
               toolUseDetected := true; this := this1; world := w |}
      | (inr result, w) =>
          let toolResultContent :=
            match content result with
            | inl s => s
            | inr v => JSON_stringify v
            end in
          Ok {| finalResponse :=
                  finalResponse f +:+ "[Used tool: " +:+ toolName +:+ "]" +:+ nl;
                iteration := iteration f;
                toolUseDetected := true;
                this := push (user_tool_result id toolResultContent None) this1;
                world := w |}
      end
  | OtherBlock => Ok f
  end.

Fixpoint for_content (response : list (@ContentBlock Json)) (f : Frame) : Step :=
  match response with
  | [] => Ok f
  | block :: rest =>
      match handle_content block f with
      | Ok f' => for_content rest f'
      | Raise message f' => Raise message f'
      end
  end.

Inductive Completion :=
| Finished (f : Frame)
| Threw (message : string) (f : Frame).

Definition frame_of (r : Completion) : Frame :=
  match r with Finished f => f | Threw _ f => f end.

Definition enter_round (w : World) (f : Frame) : Frame :=
  {| finalResponse := finalResponse f; iteration := S (iteration f);
     toolUseDetected := false; this := this f; world := w |}.

Definition add_notice (f : Frame) : Frame :=
  {| finalResponse := finalResponse f +:+ "Maximum tool iterations reached.";
     iteration := iteration f; toolUseDetected := toolUseDetected f;
     this := this f; world := world f |}.

(** [while (iteration < maxIterations)]; [None] is out of fuel. *)
Fixpoint while_loop (fuel : nat) (f : Frame) : option Completion :=
  if (iteration f <? maxIterations)%nat then
    match fuel with
    | O => None
    | S fuel' =>
        match messages_create (conversationHistory (this f))
                              (tools_param (tools (this f))) (world f) with
        | (inl message, w) => Some (Threw message (enter_round w f))
        | (inr response, w) =>
            match for_content response (enter_round w f) with
            | Raise message f1 => Some (Threw message f1)
            | Ok f1 =>
                if negb (toolUseDetected f1) then Some (Finished f1)
                else
                  let f2 := if (iteration f1 =? maxIterations)%nat
                            then add_notice f1 else f1 in
                  while_loop fuel' f2
            end
        end
    end
  else Some (Finished f).

Definition start_frame (query : string) (c : MCPClient) (w : World) : Frame :=
  {| finalResponse := EmptyString; iteration := 0; toolUseDetected := false;
     this := push (user_text query) c; world := w |}.

Definition processQuery (query : string) (c : MCPClient) (w : World)
  : option (string * MCPClient * World) :=
  match while_loop maxIterations (start_frame query c w) with
  | Some (Finished f) => Some (finalResponse f, this f, world f)
  | Some (Threw message f) =>
      Some ("Sorry, I encountered an error: " +:+ message, this f, world f)
  | None => None
  end.

End Simple.

End Simple.

(** The frames of the two clients hold the same values, and the multi-server
    client is in single mode with the same provider as its default client. *)
Definition same_frame {Json World : Type}
    (f : @Frame Json World) (fs : @Simple.Frame Json World) : Prop :=
  finalResponse f = Simple.finalResponse fs /\
  iteration f = Simple.iteration fs /\
  toolUseDetected f = Simple.toolUseDetected fs /\
  world f = Simple.world fs /\
  conversationHistory (this f) = Simple.conversationHistory (Simple.this fs) /\
  allTools (this f) = Simple.tools (Simple.this fs) /\
  mode (this f) = single /\
  mcpClients (this f) !! "default" = Some (Simple.mcp (Simple.this fs)).

(** ** Concrete settings for the added properties *)

Module Cases.

Import Demo.

(** URLs as their text; every text is accepted. *)
Definition url (target : string) : string + string := inr target.

Definition path_env : gmap string string :=
  {["GITHUB_TOKEN" := "ghp_example"; "PATH" := "/usr/bin";
    "GITHUB_PERSONAL_ACCESS_TOKEN" := "stale"]}.

(** Opening a launch always succeeds with the provider [provider names]. *)
Definition opens (names : list string)
    (launch : @Launch string) (w : World) : (string + @Connection Json World) * World :=
  (inr (provider names), S w).

(** A provider that rejects every call. *)
Definition refusing : @Client Json World :=
  {| client_callTool := fun toolName args w => (inl ("refused " +:+ toolName), S w) |}.

Definition simple_client (mcp : @Client Json World) (names : list string)
  : @Simple.MCPClient Json World :=
  {| Simple.mcp := mcp; Simple.transport := Some stdio;
     Simple.tools := map as_Tool (map listed names);
     Simple.conversationHistory := [] |}.

(** The multi-server client connected to one server in single mode. *)
Definition single_client (names : list string) : @MCPClient Json World :=
  (connectToServer (inr (provider names)) new_MCPClient).2.

Definition tool (n : string) : @Tool Json :=
  {| name := n; description := None; input_schema := "{}" |}.

Definition catalog (names : list string) : @MCPClient Json World :=
  {| mcpClients := ∅; transports := ∅; allTools := map tool names;
     conversationHistory := []; mode := multi |}.

Definition long_text : string :=
  "0123456789012345678901234567890123456789012345678901234567890123456789".

End Cases.

(** ** Facts about the string primitives *)

Module JsFacts.
Import Js.

Lemma append_nil_l (s : string) : EmptyString +:+ s = s.
Proof. reflexivity. Qed.

Lemma append_cons (a : ascii) (s t : string) :
  String a s +:+ t = String a (s +:+ t).
Proof. reflexivity. Qed.

Lemma append_nil_r (s : string) : s +:+ EmptyString = s.
Proof. induction s as [|a s IH]; [done | by rewrite append_cons, IH]. Qed.

Lemma append_assoc (s t u : string) : (s +:+ t) +:+ u = s +:+ t +:+ u.
Proof. induction s as [|a s IH]; [done | by rewrite !append_cons, IH]. Qed.

Lemma length_append (s t : string) :
  String.length (s +:+ t) = (String.length s + String.length t)%nat.
Proof.
  induction s as [|a s IH]; [done |]. rewrite append_cons. simpl. by f_equal.
Qed.

(** *** startsWith, includes *)

Lemma startsWith_spec (s p : string) :
  startsWith s p = true <-> exists post, s = p +:+ post.
Proof.
  revert s. induction p as [|b p IH]; intros s.
  - split; [intros _; exists s; reflexivity | done].
  - destruct s as [|a s]; simpl.
    + split; [done | intros [post H]; discriminate].
    + rewrite andb_true_iff, Ascii.eqb_eq, IH. split.
      * intros [-> [post ->]]. exists post. reflexivity.
      * intros [post H]. rewrite append_cons in H. injection H as -> ->. eauto.
Qed.

Lemma includes_spec (s p : string) :
  includes s p = true <-> exists pre post, s = pre +:+ p +:+ post.
Proof.
  induction s as [|a s IH].
  - simpl. rewrite orb_false_r, startsWith_spec. split.
    + intros [post H]. exists EmptyString, post. by rewrite append_nil_l.
    + intros [[|b pre] [post H]]; [by exists post | discriminate].
  - cbn [includes]. rewrite orb_true_iff, startsWith_spec, IH. split.
    + intros [[post H] | (pre & post & ->)].
      * exists EmptyString, post. by rewrite append_nil_l.
      * exists (String a pre), post. by rewrite append_cons.
    + intros [[|b pre] [post H]].
      * left. by exists post.
      * right. rewrite append_cons in H. injection H as -> ->. by exists pre, post.
Qed.

(** *** indexOf *)

Lemma indexOf_ge (s : string) (c : ascii) : -1 <= indexOf s c.
Proof.
  induction s as [|a s IH]; simpl; [lia |].
  destruct (Ascii.eqb a c); [lia |].
  destruct (Z.eqb_spec (indexOf s c) (-1)); lia.
Qed.

Lemma indexOf_cons_absent (a : ascii) (s : string) (c : ascii) :
  indexOf (String a s) c = -1 <-> a <> c /\ indexOf s c = -1.
Proof.
  simpl. destruct (Ascii.eqb_spec a c) as [->|Hne].
  - split; [lia | intros [? _]; done].
  - pose proof (indexOf_ge s c).
    destruct (Z.eqb_spec (indexOf s c) (-1)); split; try tauto; try lia.
Qed.

(** The first occurrence of [c] in [p ++ c :: t] is right after a [c]-free
    [p]. *)
Lemma indexOf_first (p t : string) (c : ascii) :
  indexOf p c = -1 ->
  indexOf (p +:+ String c t) c = Z.of_nat (String.length p).
Proof.
  induction p as [|a p IH]; intros Hp.
  - simpl. by rewrite Ascii.eqb_refl.
  - apply indexOf_cons_absent in Hp as [Hne Hp].
    rewrite append_cons. cbn [indexOf String.length].
    destruct (Ascii.eqb_spec a c) as [|_]; [done |].
    rewrite (IH Hp).
    destruct (Z.eqb_spec (Z.of_nat (String.length p)) (-1)); lia.
Qed.

Lemma indexOf_absent_append (s t : string) (c : ascii) :
  indexOf (s +:+ t) c = -1 <-> indexOf s c = -1 /\ indexOf t c = -1.
Proof.
  induction s as [|a s IH].
  - rewrite append_nil_l. simpl. tauto.
  - rewrite append_cons, !indexOf_cons_absent, IH. tauto.
Qed.

(** A string with a [c] splits at its first one. *)
Lemma indexOf_present (s : string) (c : ascii) :
  indexOf s c <> -1 ->
  exists p t, s = p +:+ String c t /\ indexOf p c = -1.
Proof.
  induction s as [|a s IH]; intros H; [done |].
  destruct (Ascii.eqb_spec a c) as [->|Hne].
  - exists EmptyString, s. by rewrite append_nil_l.
  - destruct IH as (p & t & -> & Hp).
    + intros Hs. apply H. by apply indexOf_cons_absent.
    + exists (String a p), t. rewrite append_cons.
      split; [done |]. by apply indexOf_cons_absent.
Qed.

(** *** substring *)

Lemma take_append (p t : string) : take (String.length p) (p +:+ t) = p.
Proof.
  induction p as [|a p IH]; [by destruct t |].
  rewrite append_cons. simpl. by rewrite IH.
Qed.

Lemma drop_append (p t : string) : drop (String.length p) (p +:+ t) = t.
Proof.
  induction p as [|a p IH]; [by destruct t |]. by rewrite append_cons.
Qed.

Lemma substring_prefix (p t : string) :
  substring (p +:+ t) 0 (Z.of_nat (String.length p)) = p.
Proof.
  unfold substring, clamp. rewrite length_append, Nat2Z.id.
  change (Z.to_nat 0) with 0%nat.
  rewrite Nat.min_0_l, Nat.max_0_l, Nat.sub_0_r.
  rewrite Nat.min_l by lia. simpl. apply take_append.
Qed.

Lemma substring_from_suffix (p t : string) (c : ascii) :
  substring_from (p +:+ String c t) (Z.of_nat (String.length p) + 1) = t.
Proof.
  unfold substring_from, clamp.
  replace (p +:+ String c t) with ((p +:+ String c EmptyString) +:+ t)
    by (by rewrite append_assoc).
  replace (Z.to_nat (Z.of_nat (String.length p) + 1))
    with (String.length (p +:+ String c EmptyString)) by (rewrite length_append; simpl; lia).
  rewrite Nat.min_l by (rewrite (length_append (_ +:+ _)); lia).
  apply drop_append.
Qed.

(** *** split *)

Lemma split_nonempty (s : string) (c : ascii) : split s c <> [].
Proof.
  induction s as [|a s IH]; simpl; [done |].
  destruct (Ascii.eqb a c); [done |]. by destruct (split s c).
Qed.

Lemma split_absent (s : string) (c : ascii) :
  indexOf s c = -1 -> split s c = [s].
Proof.
  induction s as [|a s IH]; intros H; [done |].
  apply indexOf_cons_absent in H as [Hne H]. simpl.
  destruct (Ascii.eqb_spec a c); [done |]. by rewrite (IH H).
Qed.

(** Splitting distributes over a separator. *)
Lemma split_append (p t : string) (c : ascii) :
  split (p +:+ String c t) c = split p c ++ split t c.
Proof.
  induction p as [|a p IH].
  - rewrite append_nil_l. simpl. by rewrite Ascii.eqb_refl.
  - rewrite append_cons. simpl. rewrite IH.
    pose proof (split_nonempty p c).
    destruct (Ascii.eqb a c); [done |]. by destruct (split p c).
Qed.

Lemma pop_split_append (p t : string) (c : ascii) :
  pop (split (p +:+ String c t) c) = pop (split t c).
Proof.
  unfold pop. rewrite split_append.
  pose proof (split_nonempty t c).
  destruct (split t c) as [|h l]; [done |]. apply last_app_cons.
Qed.

Lemma pop_split_sound (n : nat) (c : ascii) :
  forall s seg, (String.length s <= n)%nat ->
  pop (split s c) = Some seg ->
  indexOf seg c = -1 /\ (s = seg \/ exists pre, s = pre +:+ String c seg).
Proof.
  induction n as [|n IH]; intros s seg Hlen Hpop.
  - destruct s; [| simpl in Hlen; lia].
    injection Hpop as <-. by split; [| left].
  - destruct (Z.eq_dec (indexOf s c) (-1)) as [Habs|Hpres].
    + rewrite (split_absent _ _ Habs) in Hpop. injection Hpop as <-.
      by split; [| left].
    + destruct (indexOf_present _ _ Hpres) as (p & t & -> & Hp).
      rewrite pop_split_append in Hpop.
      destruct (IH t seg) as [Hseg Ht]; [| done |].
      { rewrite length_append in Hlen. simpl in Hlen. lia. }
      split; [done |]. right. destruct Ht as [->|[pre ->]]; [by exists p |].
      exists (p +:+ String c pre). by rewrite append_assoc.
Qed.

(** The last part is the longest [c]-free suffix. *)
Lemma pop_split_spec (s seg : string) (c : ascii) :
  pop (split s c) = Some seg <->
  indexOf seg c = -1 /\ (s = seg \/ exists pre, s = pre +:+ String c seg).
Proof.
  split; [by apply (pop_split_sound (String.length s)) |].
  intros [Hseg [->|[pre ->]]].
  - by rewrite split_absent.
  - by rewrite pop_split_append, split_absent.
Qed.

End JsFacts.

(** ** The registry: effective names *)

Section Registry.

Context {Json World : Type}.
Implicit Types (c : @MCPClient Json World) (tool : @Tool Json).
Implicit Types (conn : @Connection Json World).

Import JsFacts.

Lemma sep_s_append (t : string) : sep_s +:+ t = String sep t.
Proof. reflexivity. Qed.

(** The effective name of a provider's local tool. *)
Lemma prefixed_name (serverType : string) tool :
  name (prefixed serverType tool) = serverType +:+ sep_s +:+ name tool.
Proof. reflexivity. Qed.

Lemma connect_names (serverType : string) conn c :
  map name (allTools (connectToMultipleServers serverType (inr conn) c).2) =
  map name (allTools c) ++
  map (fun t => serverType +:+ sep_s +:+ t) (local_names conn).
Proof.
  destruct conn as [[client transport] listed]. unfold local_names. simpl.
  rewrite map_app. f_equal. rewrite !map_map. reflexivity.
Qed.

Lemma connect_all_cons (r : string * Connection)
    (providers : list (string * Connection)) c :
  connect_all (r :: providers) c =
  connect_all providers (connectToMultipleServers r.1 (inr r.2) c).2.
Proof. reflexivity. Qed.

Lemma connect_all_names (providers : list (string * Connection)) c :
  map name (allTools (connect_all providers c)) =
  map name (allTools c) ++
  flat_map (fun r => map (fun t => r.1 +:+ sep_s +:+ t) (local_names r.2))
           providers.
Proof.
  revert c. induction providers as [|r providers IH]; intros c.
  - simpl. by rewrite app_nil_r.
  - rewrite connect_all_cons, IH, connect_names, <- app_assoc. reflexivity.
Qed.

Lemma connect_all_mode (providers : list (string * Connection)) c :
  providers <> [] -> mode (connect_all providers c) = multi.
Proof.
  revert c. induction providers as [|r providers IH]; intros c Hne; [done |].
  rewrite connect_all_cons.
  destruct providers as [|r' providers].
  - destruct r as [p [[client transport] listed]]. reflexivity.
  - by apply IH.
Qed.

(** A separator-free provider id is recovered from the effective name. *)
Lemma prefix_inj (p1 p2 t1 t2 : string) :
  Js.indexOf p1 sep = -1 -> Js.indexOf p2 sep = -1 ->
  p1 +:+ sep_s +:+ t1 = p2 +:+ sep_s +:+ t2 -> p1 = p2 /\ t1 = t2.
Proof.
  rewrite !sep_s_append.
  revert p2. induction p1 as [|a p1 IH]; intros [|b p2] H1 H2 Heq;
    rewrite ?append_nil_l, ?append_cons in Heq.
  - injection Heq as ->. done.
  - apply indexOf_cons_absent in H2 as [Hb _].
    injection Heq as Hab _. congruence.
  - apply indexOf_cons_absent in H1 as [Ha _].
    injection Heq as Hab _. congruence.
  - apply indexOf_cons_absent in H1 as [_ H1].
    apply indexOf_cons_absent in H2 as [_ H2].
    injection Heq as -> Heq.
    destruct (IH _ H1 H2 Heq) as [-> ->]. done.
Qed.

Lemma prefixed_names_NoDup (p : string) (names : list string) :
  List.NoDup names -> List.NoDup (map (fun t => p +:+ sep_s +:+ t) names).
Proof.
  induction 1 as [|t names Hnotin Hnodup IH]; simpl; constructor; [| done].
  rewrite in_map_iff. intros (t' & Heq & Hin).
  apply String.app_inj in Heq. rewrite !sep_s_append in Heq.
  injection Heq as ->. done.
Qed.

(** C4, as amended: with pairwise distinct provider ids that contain no
    separator, and local tool names unique within each provider, the
    prefixed effective names of the catalog are pairwise distinct, whether
    or not two providers list the same local name. *)
Theorem effective_names_distinct (providers : list (string * Connection)) :
  List.NoDup (map fst providers) ->
  (forall p conn, In (p, conn) providers ->
     Js.indexOf p sep = -1 /\ List.NoDup (local_names conn)) ->
  List.NoDup (map name (allTools (connect_all providers new_MCPClient))).
Proof.
  rewrite connect_all_names. simpl.
  induction providers as [|[p conn] providers IH]; intros Hids Hprov.
  - constructor.
  - cbn [flat_map fst snd]. simpl in Hids.
    apply NoDup_cons_iff in Hids as [Hp Hids].
    destruct (Hprov p conn) as [Hsep Hloc]; [by left |].
    apply List.NoDup_app.
    + by apply prefixed_names_NoDup.
    + apply IH; [done |]. intros q conn' Hin. apply Hprov. by right.
    + intros eff Hin1 Hin2.
      apply in_map_iff in Hin1 as (t & <- & Ht).
      apply in_flat_map in Hin2 as ([q conn'] & Hin & Hin2).
      apply in_map_iff in Hin2 as (t' & Heq & Ht'). simpl in Heq.
      destruct (Hprov q conn') as [Hsep' _]; [by right |].
      destruct (prefix_inj _ _ _ _ Hsep' Hsep Heq) as [-> _].
      apply Hp. apply in_map_iff. by exists (p, conn').
Qed.

End Registry.

(** ** The resolver: findToolByName *)

Section Resolver.

Context {Json World : Type}.
Implicit Types (c : @MCPClient Json World) (tool : @Tool Json).
Implicit Types (conn : @Connection Json World).

Import JsFacts.

Lemma find_absent {A} (f : A -> bool) (l : list A) :
  (forall x, In x l -> f x = false) -> find f l = None.
Proof.
  induction l as [|x l IH]; intros H; [done |]. simpl.
  rewrite (H x) by (by left). apply IH. intros y Hy. apply H. by right.
Qed.

Lemma find_present {A} (f : A -> bool) (l : list A) (x : A) :
  In x l -> f x = true -> exists m, find f l = Some m /\ In m l /\ f m = true.
Proof.
  intros Hin Hx. destruct (find f l) as [m|] eqn:E.
  - exists m. split; [done |]. by apply find_some in E.
  - by rewrite (find_none _ _ E x Hin) in Hx.
Qed.

Lemma suffix_pred_pop (baseName : string) tool :
  suffix_pred baseName tool = true <->
  Js.pop (Js.split (name tool) sep) = Some baseName.
Proof.
  unfold suffix_pred. destruct (Js.pop _) as [lastPart|]; [| done].
  rewrite String.eqb_eq. split; congruence.
Qed.

Lemma final_segment_pop (s segment : string) :
  final_segment s segment <-> Js.pop (Js.split s sep) = Some segment.
Proof. symmetry. apply pop_split_spec. Qed.

(** Every name has exactly one final segment. *)
Lemma final_segment_exists (s : string) : exists segment, final_segment s segment.
Proof.
  destruct (Js.pop (Js.split s sep)) as [segment|] eqn:E.
  - exists segment. by apply final_segment_pop.
  - apply last_None in E. by apply split_nonempty in E.
Qed.

Lemma final_segment_unique (s segment1 segment2 : string) :
  final_segment s segment1 -> final_segment s segment2 -> segment1 = segment2.
Proof. rewrite !final_segment_pop. congruence. Qed.

(** The suffix strategy compares the last separator-delimited segment. *)
Lemma suffix_pred_spec (baseName : string) tool :
  suffix_pred baseName tool = true <-> final_segment (name tool) baseName.
Proof. by rewrite suffix_pred_pop, final_segment_pop. Qed.

(** C3, as amended: the flexible strategy matches an entry exactly when the
    requested name is a case-insensitive substring of the entry's whole
    effective name, provider prefix included, or the final segment of the
    effective name is a case-insensitive substring of the requested name. *)
Theorem flexible_pred_spec (baseName : string) tool :
  flexible_pred baseName tool = true <->
  substring_of (Js.toLowerCase baseName) (Js.toLowerCase (name tool)) \/
  exists segment,
    final_segment (name tool) segment /\
    substring_of (Js.toLowerCase segment) (Js.toLowerCase baseName).
Proof.
  unfold flexible_pred, substring_of.
  rewrite orb_true_iff, includes_spec.
  destruct (Js.pop (Js.split (name tool) sep)) as [lastPart|] eqn:E.
  - rewrite includes_spec. apply final_segment_pop in E as Hfinal. split.
    + intros [H|H]; [by left | right; by exists lastPart].
    + intros [H|(segment & Hseg & H)]; [by left | right].
      apply final_segment_pop in Hseg. rewrite E in Hseg.
      injection Hseg as <-. done.
  - apply last_None in E. by apply split_nonempty in E.
Qed.

(** No strategy matches: the resolver answers [undefined]. *)
Lemma findToolByName_unmatched c (baseName : string) :
  (forall tool, In tool (allTools c) ->
     exact_pred baseName tool = false /\
     suffix_pred baseName tool = false /\
     flexible_pred baseName tool = false) ->
  findToolByName c baseName = None.
Proof.
  intros H. unfold findToolByName.
  rewrite !find_absent; [done | | |]; intros tool Hin; by apply H.
Qed.

(** Effective names registered in multi-server mode contain the
    separator. *)
Lemma connect_all_names_prefixed (providers : list (string * Connection)) eff :
  In eff (map name (allTools (connect_all providers new_MCPClient))) ->
  exists p conn t, In (p, conn) providers /\ In t (local_names conn) /\
                   eff = p +:+ sep_s +:+ t.
Proof.
  rewrite connect_all_names. simpl. rewrite in_flat_map.
  intros ([p conn] & Hin & Heff). apply in_map_iff in Heff as (t & <- & Ht).
  by exists p, conn, t.
Qed.

Lemma prefixed_has_sep (p t : string) : Js.indexOf (p +:+ sep_s +:+ t) sep <> -1.
Proof.
  rewrite sep_s_append, indexOf_absent_append, indexOf_cons_absent. tauto.
Qed.

(** Where the last-segment comparison does resolve a bare name: registering
    provider [p]'s local tool [t] in multi-server mode puts the effective
    name [p ++ "_" ++ t] in the catalog; and when [t] contains no separator
    and no other entry of the catalog has [t] as its final segment, the exact
    strategy finds nothing and the suffix strategy resolves the bare name [t]
    to that effective name. *)
Theorem resolve_bare_name (providers : list (string * Connection))
    (p : string) conn (t : string) :
  In (p, conn) providers -> In t (local_names conn) ->
  let c := connect_all providers new_MCPClient in
  let effective := p +:+ sep_s +:+ t in
  In effective (map name (allTools c)) /\
  (Js.indexOf t sep = -1 ->
   (forall other, In other (allTools c) -> name other <> effective ->
      Js.pop (Js.split (name other) sep) <> Some t) ->
   find (exact_pred t) (allTools c) = None /\
   (exists suffixMatch, find (suffix_pred t) (allTools c) = Some suffixMatch /\
                        name suffixMatch = effective) /\
   findToolByName c t = Some effective).
Proof.
  intros Hprov Hloc c effective.
  assert (In effective (map name (allTools c))) as Hin.
  { subst c. rewrite connect_all_names. simpl. apply in_flat_map.
    exists (p, conn). split; [done |]. apply in_map_iff. by exists t. }
  split; [done |]. intros Ht Hothers.
  assert (find (exact_pred t) (allTools c) = None) as Hexact.
  { apply find_absent. intros tool Htool. unfold exact_pred.
    apply String.eqb_neq. intros Heq.
    destruct (connect_all_names_prefixed providers (name tool))
      as (q & conn' & t' & _ & _ & Hname); [by apply in_map |].
    apply (prefixed_has_sep q t'). by rewrite <- Hname, Heq. }
  apply in_map_iff in Hin as (target & Hname & Htarget).
  assert (suffix_pred t target = true) as Hsuffix.
  { apply suffix_pred_pop. rewrite Hname. subst effective.
    by rewrite sep_s_append, pop_split_append, split_absent. }
  destruct (find_present _ _ _ Htarget Hsuffix) as (m & Hfind & Hm & Hmt).
  assert (name m = effective) as Hmname.
  { destruct (String.eqb_spec (name m) effective) as [|Hne]; [done |].
    apply suffix_pred_pop in Hmt. by apply Hothers in Hmt. }
  split; [done |]. split; [by exists m |].
  unfold findToolByName. fold c. by rewrite Hexact, Hfind, Hmname.
Qed.

End Resolver.

(** ** The dispatcher and the query loop *)

Section Loop.

Context {Json World : Type} (JSON_stringify : Json -> string).
Context (messages_create :
  list (@MessageParam Json) -> option (list (@Tool Json)) -> World ->
  (string + list (@ContentBlock Json)) * World).
Implicit Types (c : @MCPClient Json World) (f : @Frame Json World).
Implicit Types (block : @ContentBlock Json) (response : list (@ContentBlock Json)).
Implicit Types (w : World) (args : Json).

Import JsFacts.

Abbreviation handle_content := (handle_content JSON_stringify).
Abbreviation for_content := (for_content JSON_stringify).
Abbreviation after_round := (after_round JSON_stringify).
Abbreviation while_loop := (while_loop JSON_stringify messages_create).
Abbreviation processQuery := (processQuery JSON_stringify messages_create).
Abbreviation chatLoop_body := (chatLoop_body JSON_stringify messages_create).
Abbreviation continues := (continues JSON_stringify messages_create).
Abbreviation model_call f :=
  (messages_create (conversationHistory (this f))
                   (tools_param (allTools (this f))) (world f)).

(** *** callTool *)

(** C5: in multi-server mode [callTool] cuts the effective name at its first
    separator: for a separator-free provider id [p] and any local name [t]
    (separators included), the call goes to the client registered under [p]
    with the local name [t] intact, and without such a client it throws
    "No client found for server type". *)
Theorem callTool_multi_dispatch c (p t : string) args w :
  mode c = multi ->
  Js.indexOf p sep = -1 ->
  callTool c (p +:+ sep_s +:+ t) args w =
  match mcpClients c !! p with
  | Some client => client_callTool client t args w
  | None => (inl ("No client found for server type: " +:+ p), w)
  end.
Proof.
  intros Hmode Hp. unfold callTool. rewrite Hmode, sep_s_append.
  rewrite (indexOf_first p t sep Hp).
  destruct (Z.eqb_spec (Z.of_nat (String.length p)) (-1)) as [|_]; [lia |].
  by rewrite substring_prefix, substring_from_suffix.
Qed.

(** Every name with a separator is a separator-free provider id, the
    separator and a local name, in exactly one way. *)
Lemma effective_name_decomposition (toolName : string) :
  Js.indexOf toolName sep <> -1 ->
  exists p t, toolName = p +:+ sep_s +:+ t /\ Js.indexOf p sep = -1 /\
    forall p' t', toolName = p' +:+ sep_s +:+ t' -> Js.indexOf p' sep = -1 ->
                  p' = p /\ t' = t.
Proof.
  intros H. destruct (indexOf_present _ _ H) as (p & t & -> & Hp).
  exists p, t. split; [done |]. split; [done |].
  intros p' t' Heq Hp'. rewrite <- sep_s_append in Heq.
  destruct (prefix_inj _ _ _ _ Hp Hp' Heq) as [-> ->]. done.
Qed.

Lemma callTool_no_separator c (toolName : string) args w :
  mode c = multi ->
  Js.indexOf toolName sep = -1 ->
  callTool c toolName args w =
  (inl ("Invalid tool name format: " +:+ toolName), w).
Proof. intros Hmode Hsep. unfold callTool. by rewrite Hmode, Hsep. Qed.

(** *** One response *)

Lemma handle_content_iteration block f :
  iteration (handle_content block f) = iteration f.
Proof.
  destruct block as [text|id toolName toolArgs|]; simpl; try done.
  destruct (findToolByName _ _) as [[|a s]|]; try done.
  by destruct (callTool _ _ _ _) as [[message|result] w].
Qed.

Lemma for_content_iteration response f :
  iteration (for_content response f) = iteration f.
Proof.
  revert f. induction response as [|block rest IH]; intros f; [done |].
  simpl. by rewrite IH, handle_content_iteration.
Qed.

(** A pass over a content block only appends to the history. *)
Lemma handle_content_history block f :
  exists turns, conversationHistory (this (handle_content block f)) =
                conversationHistory (this f) ++ turns.
Proof.
  destruct block as [text|id toolName toolArgs|]; simpl.
  - by eexists.
  - destruct (findToolByName _ _) as [[|a s]|]; try by eexists.
    destruct (callTool _ _ _ _) as [[message|result] w]; simpl;
      rewrite <- app_assoc; by eexists.
  - exists []. by rewrite app_nil_r.
Qed.

Lemma for_content_history response f :
  exists turns, conversationHistory (this (for_content response f)) =
                conversationHistory (this f) ++ turns.
Proof.
  revert f. induction response as [|block rest IH]; intros f.
  - exists []. by rewrite app_nil_r.
  - simpl. destruct (IH (handle_content block f)) as [turns2 ->].
    destruct (handle_content_history block f) as [turns1 ->].
    exists (turns1 ++ turns2). by rewrite app_assoc.
Qed.

Lemma handle_content_detected block f :
  toolUseDetected (handle_content block f) =
  toolUseDetected f || is_tool_use block.
Proof.
  destruct block as [text|id toolName toolArgs|]; simpl;
    rewrite ?orb_false_r, ?orb_true_r; try done.
  destruct (findToolByName _ _) as [[|a s]|]; try done.
  by destruct (callTool _ _ _ _) as [[message|result] w].
Qed.

Lemma for_content_detected response f :
  toolUseDetected (for_content response f) =
  toolUseDetected f || existsb is_tool_use response.
Proof.
  revert f. induction response as [|block rest IH]; intros f; simpl.
  - by rewrite orb_false_r.
  - by rewrite IH, handle_content_detected, orb_assoc.
Qed.

Lemma after_round_iteration response w f :
  iteration (after_round response w f) = S (iteration f).
Proof. unfold after_round. by rewrite for_content_iteration. Qed.

Lemma after_round_detected response w f :
  toolUseDetected (after_round response w f) = existsb is_tool_use response.
Proof. unfold after_round. by rewrite for_content_detected. Qed.

Lemma after_round_history response w f :
  exists turns, conversationHistory (this (after_round response w f)) =
                conversationHistory (this f) ++ turns.
Proof. unfold after_round. apply (for_content_history response (enter_round w f)). Qed.

(** On the path where resolution succeeds, the request turn is recorded and
    then exactly one outcome turn with the same id. *)
Lemma resolved_request_paired f (id toolName : string) args (a : ascii) (s : string) :
  findToolByName (this f) toolName = Some (String a s) ->
  exists text is_error,
    conversationHistory (this (handle_content (ToolUseBlock id toolName args) f)) =
    conversationHistory (this f) ++
    [assistant_tool_use id toolName args; user_tool_result id text is_error].
Proof.
  intros Hfind. simpl. rewrite Hfind.
  destruct (callTool _ _ _ _) as [[message|result] w]; simpl;
    rewrite <- app_assoc; by do 2 eexists.
Qed.

(** *** The while loop *)

Local Ltac cap_lia := unfold maxIterations in *; simpl in *; lia.

Lemma while_loop_done (fuel : nat) f :
  (maxIterations <= iteration f)%nat -> while_loop fuel f = Some (Finished f).
Proof.
  intros H. destruct fuel; simpl;
    by destruct (Nat.ltb_spec (iteration f) maxIterations); [cap_lia |].
Qed.

Lemma while_loop_step (fuel : nat) f :
  (iteration f < maxIterations)%nat ->
  while_loop (S fuel) f =
  match model_call f with
  | (inl message, w) => Some (Threw message (enter_round w f))
  | (inr response, w) =>
      let f1 := after_round response w f in
      if negb (toolUseDetected f1) then Some (Finished f1)
      else while_loop fuel
             (if (iteration f1 =? maxIterations)%nat then add_notice f1 else f1)
  end.
Proof.
  intros H. simpl.
  by destruct (Nat.ltb_spec (iteration f) maxIterations); [| cap_lia].
Qed.

Lemma while_loop_fuel_mono (fuel fuel' : nat) f r :
  while_loop fuel f = Some r -> (fuel <= fuel')%nat -> while_loop fuel' f = Some r.
Proof.
  revert fuel' f. induction fuel as [|fuel IH]; intros fuel' f Hr Hle.
  - simpl in Hr. destruct (Nat.ltb_spec (iteration f) maxIterations); [done |].
    injection Hr as <-. by apply while_loop_done.
  - destruct fuel' as [|fuel']; [cap_lia |].
    destruct (Nat.ltb_spec (iteration f) maxIterations) as [Hlt|Hge].
    + rewrite while_loop_step in Hr |- * by done.
      destruct (model_call f) as [[message|response] w]; [done |].
      cbv zeta in Hr |- *.
      destruct (negb (toolUseDetected (after_round response w f))); [done |].
      apply IH; [done | cap_lia].
    + rewrite while_loop_done in Hr |- * by done. done.
Qed.

Lemma while_loop_deterministic (fuel1 fuel2 : nat) f r1 r2 :
  while_loop fuel1 f = Some r1 -> while_loop fuel2 f = Some r2 -> r1 = r2.
Proof.
  intros H1 H2.
  apply (while_loop_fuel_mono _ (Nat.max fuel1 fuel2)) in H1; [| cap_lia].
  apply (while_loop_fuel_mono _ (Nat.max fuel1 fuel2)) in H2; [| cap_lia].
  congruence.
Qed.

(** With fuel for the rounds that are left the loop returns, and the counter
    never passes the cap. *)
Lemma while_loop_total (fuel : nat) f :
  (maxIterations - iteration f <= fuel)%nat ->
  exists r, while_loop fuel f = Some r /\
            (iteration f <= iteration (frame_of r))%nat /\
            ((iteration f <= maxIterations)%nat ->
             (iteration (frame_of r) <= maxIterations)%nat).
Proof.
  revert f. induction fuel as [|fuel IH]; intros f Hfuel.
  - exists (Finished f). rewrite while_loop_done by cap_lia.
    split; [done | cap_lia].
  - destruct (Nat.ltb_spec (iteration f) maxIterations) as [Hlt|Hge].
    + rewrite while_loop_step by done.
      destruct (model_call f) as [[message|response] w].
      * eexists. split; [done |]. simpl. cap_lia.
      * cbv zeta. pose proof (after_round_iteration response w f) as Hit.
        destruct (negb (toolUseDetected (after_round response w f))).
        -- eexists. split; [done |]. simpl. cap_lia.
        -- set (f2 := if (iteration _ =? maxIterations)%nat then _ else _).
           assert (iteration f2 = S (iteration f)) as Hit2.
           { subst f2. by destruct (_ =? _)%nat. }
           destruct (IH f2) as (r & Hr & Hle & Hcap); [cap_lia |].
           exists r. split; [done |]. cap_lia.
    + exists (Finished f). rewrite while_loop_done by cap_lia.
    split; [done | cap_lia].
Qed.

(** *** Rounds that lead to another round *)

Lemma continues_while (fuel : nat) f f' :
  continues f f' -> while_loop (S fuel) f = while_loop fuel f'.
Proof.
  intros [response w Hlt Hcall Hdetected Hcap].
  rewrite while_loop_step, Hcall by done. cbv zeta. rewrite Hdetected. simpl.
  by destruct (Nat.eqb_spec (iteration (after_round response w f)) maxIterations).
Qed.

Lemma continues_iteration f f' :
  continues f f' -> (iteration f' < maxIterations)%nat.
Proof.
  intros [response w Hlt Hcall Hdetected Hcap].
  rewrite after_round_iteration in Hcap |- *. cap_lia.
Qed.

Lemma continues_history f f' :
  continues f f' ->
  exists turns, conversationHistory (this f') = conversationHistory (this f) ++ turns.
Proof. intros [response w _ _ _ _]. apply after_round_history. Qed.

Lemma reached_iteration f0 f :
  rtc continues f0 f -> (iteration f0 < maxIterations)%nat ->
  (iteration f < maxIterations)%nat.
Proof.
  induction 1 as [|f0 f1 f Hstep _ IH]; [done |].
  intros _. apply IH. by apply continues_iteration in Hstep.
Qed.

Lemma reached_history f0 f :
  rtc continues f0 f ->
  exists turns, conversationHistory (this f) = conversationHistory (this f0) ++ turns.
Proof.
  induction 1 as [f|f0 f1 f Hstep _ [turns2 IH]].
  - exists []. by rewrite app_nil_r.
  - destruct (continues_history _ _ Hstep) as [turns1 H1].
    exists (turns1 ++ turns2). by rewrite IH, H1, app_assoc.
Qed.

(** The result of the loop from a reached frame is the result of the whole
    loop. *)
Lemma reached_result f0 f (fuel : nat) r :
  rtc continues f0 f -> while_loop fuel f = Some r ->
  exists fuel0, while_loop fuel0 f0 = Some r.
Proof.
  induction 1 as [f|f0 f1 f Hstep _ IH]; intros Hr; [by exists fuel |].
  destruct (IH Hr) as [fuel1 H1]. exists (S fuel1).
  by rewrite (continues_while _ _ _ Hstep).
Qed.

Lemma start_result (query : string) c w f (fuel : nat) r :
  rtc continues (start_frame query c w) f -> while_loop fuel f = Some r ->
  forall fuel0, (maxIterations <= fuel0)%nat ->
  while_loop fuel0 (start_frame query c w) = Some r.
Proof.
  intros Hreach Hr fuel0 Hfuel0.
  destruct (reached_result _ _ _ _ Hreach Hr) as [fuel1 H1].
  destruct (while_loop_total fuel0 (start_frame query c w)) as (r0 & H0 & _);
    [simpl; cap_lia |].
  by rewrite H0, (while_loop_deterministic _ _ _ _ _ H0 H1).
Qed.

(** *** processQuery *)

Lemma processQuery_result (query : string) c w r :
  while_loop maxIterations (start_frame query c w) = Some r ->
  processQuery query c w = Some (answer r, this (frame_of r), world (frame_of r)).
Proof. intros H. unfold processQuery. rewrite H. by destruct r. Qed.

(** C6: the query loop returns after at most [maxIterations = 3] rounds for
    every behaviour of the model; a round whose response has no [tool_use]
    block ends the loop right after that round with nothing added to the
    buffer (after round 1 for a text-only first response); and when the third
    round still has a [tool_use] block, the loop ends with the truncation
    notice appended to the buffer. *)
Theorem query_loop_bounded (query : string) c w :
  exists r,
    (forall fuel, (maxIterations <= fuel)%nat ->
       while_loop fuel (start_frame query c w) = Some r) /\
    processQuery query c w = Some (answer r, this (frame_of r), world (frame_of r)) /\
    (iteration (frame_of r) <= maxIterations)%nat /\
    (forall f response w',
       rtc continues (start_frame query c w) f ->
       model_call f = (inr response, w') ->
       existsb is_tool_use response = false ->
       r = Finished (after_round response w' f)) /\
    (forall f response w',
       rtc continues (start_frame query c w) f ->
       iteration f = 2%nat ->
       model_call f = (inr response, w') ->
       existsb is_tool_use response = true ->
       r = Finished (add_notice (after_round response w' f))).
Proof.
  destruct (while_loop_total maxIterations (start_frame query c w))
    as (r & Hr & _ & Hcap); [cap_lia |].
  exists r. split; [| split; [| split; [| split]]].
  - intros fuel Hfuel. by apply (while_loop_fuel_mono maxIterations).
  - by apply processQuery_result.
  - apply Hcap. cap_lia.
  - intros f response w' Hreach Hcall Htext.
    assert (iteration f < maxIterations)%nat as Hlt
      by (apply (reached_iteration _ _ Hreach); cap_lia).
    assert (while_loop 1 f = Some (Finished (after_round response w' f))) as Hf.
    { rewrite while_loop_step, Hcall by done. cbv zeta.
      by rewrite after_round_detected, Htext. }
    pose proof (start_result _ _ _ _ _ _ Hreach Hf maxIterations (le_n _)) as H0.
    congruence.
  - intros f response w' Hreach Hthird Hcall Htool.
    assert (while_loop 1 f =
            Some (Finished (add_notice (after_round response w' f)))) as Hf.
    { rewrite while_loop_step, Hcall by cap_lia. cbv zeta.
      rewrite after_round_detected, Htool, after_round_iteration, Hthird. simpl.
      rewrite after_round_iteration, Hthird. done. }
    pose proof (start_result _ _ _ _ _ _ Hreach Hf maxIterations (le_n _)) as H0.
    congruence.
Qed.

(** C8: when the model call of some round is rejected, [processQuery] returns
    the text "Sorry, I encountered an error: ..." and the client keeps the
    history as it was when that call was made: the earlier history, the
    query's user turn and every turn appended since. *)
Theorem model_failure_keeps_history (query : string) c w f (message : string) w' :
  rtc continues (start_frame query c w) f ->
  model_call f = (inl message, w') ->
  processQuery query c w =
    Some ("Sorry, I encountered an error: " +:+ message, this f, w') /\
  exists turns,
    conversationHistory (this f) = conversationHistory c ++ user_text query :: turns.
Proof.
  intros Hreach Hcall. split.
  - assert (iteration f < maxIterations)%nat as Hlt
      by (apply (reached_iteration _ _ Hreach); cap_lia).
    assert (while_loop 1 f = Some (Threw message (enter_round w' f))) as Hf
      by (by rewrite while_loop_step, Hcall).
    pose proof (start_result _ _ _ _ _ _ Hreach Hf maxIterations (le_n _)) as H0.
    by rewrite (processQuery_result _ _ _ _ H0).
  - destruct (reached_history _ _ Hreach) as [turns ->]. simpl.
    exists turns. by rewrite <- app_assoc.
Qed.

(** *** chatLoop *)

(** Any line that is not a command is a query; whatever the query's outcome,
    the chat loop goes on to the next line. *)
Lemma chatLoop_body_query (message : string) c w :
  Js.toLowerCase message <> "quit" -> Js.toLowerCase message <> "clear" ->
  Js.toLowerCase message <> "tools" -> Js.toLowerCase message <> "mode" ->
  Js.toLowerCase message <> "history" ->
  Js.toLowerCase message <> "history_full" ->
  chatLoop_body message c w =
  (fun r => (Continue, r.1.2, r.2)) <$> processQuery message c w.
Proof.
  intros H1 H2 H3 H4 H5 H6. unfold chatLoop_body.
  rewrite <- String.eqb_neq in H1, H2, H3, H4, H5, H6.
  rewrite H1, H2, H3, H4, H5, H6.
  by destruct (processQuery message c w) as [[[text c'] w']|].
Qed.

(** C10: the [clear] command empties [conversationHistory] and changes nothing
    else: the catalog, the clients, the transports, the mode and the world
    are as before. *)
Theorem clear_resets_history_only (message : string) c w :
  Js.toLowerCase message = "clear" ->
  exists c',
    chatLoop_body message c w = Some (Continue, c', w) /\
    conversationHistory c' = [] /\
    allTools c' = allTools c /\
    mcpClients c' = mcpClients c /\
    transports c' = transports c /\
    mode c' = mode c.
Proof.
  intros Hclear. exists (set_conversationHistory [] c).
  unfold chatLoop_body. rewrite Hclear. done.
Qed.

(** *** A tool request inside a round *)

Lemma for_content_app response1 response2 f :
  for_content (response1 ++ response2) f =
  for_content response2 (for_content response1 f).
Proof.
  revert f. induction response1 as [|block rest IH]; intros f; [done |].
  simpl. apply IH.
Qed.

(** The catalog and the mode are the same all through a query. *)
Lemma handle_content_catalog block f :
  allTools (this (handle_content block f)) = allTools (this f) /\
  mode (this (handle_content block f)) = mode (this f).
Proof.
  destruct block as [text|id toolName toolArgs|]; simpl; try done.
  destruct (findToolByName _ _) as [[|a s]|]; try done.
  by destruct (callTool _ _ _ _) as [[message|result] w].
Qed.

Lemma for_content_catalog response f :
  allTools (this (for_content response f)) = allTools (this f) /\
  mode (this (for_content response f)) = mode (this f).
Proof.
  revert f. induction response as [|block rest IH]; intros f; [done |].
  simpl. destruct (IH (handle_content block f)) as [-> ->].
  apply handle_content_catalog.
Qed.

Lemma reached_catalog f0 f :
  rtc continues f0 f ->
  allTools (this f) = allTools (this f0) /\ mode (this f) = mode (this f0).
Proof.
  induction 1 as [f|f0 f1 f Hstep _ [-> ->]]; [done |].
  destruct Hstep as [response w _ _ _ _]. unfold after_round.
  apply (for_content_catalog response (enter_round w f0)).
Qed.

Lemma while_loop_history (fuel : nat) f r :
  while_loop fuel f = Some r ->
  exists turns, conversationHistory (this (frame_of r)) =
                conversationHistory (this f) ++ turns.
Proof.
  revert f. induction fuel as [|fuel IH]; intros f; simpl;
    destruct (iteration f <? maxIterations)%nat; try done;
    try (intros [= <-]; exists []; by rewrite app_nil_r).
  destruct (messages_create _ _ _) as [[message|response] w].
  - intros [= <-]. exists []. by rewrite app_nil_r.
  - destruct (for_content_history response (enter_round w f)) as [turns1 H1].
    simpl in H1.
    destruct (negb (toolUseDetected (for_content response (enter_round w f)))).
    + intros [= <-]. by exists turns1.
    + intros Hr. apply IH in Hr as [turns2 H2]. exists (turns1 ++ turns2).
      rewrite H2, app_assoc, <- H1.
      by destruct (iteration _ =? maxIterations)%nat.
Qed.

(** The loop is only left by an exception when a model call is rejected. *)
Lemma threw_by_model_call (fuel : nat) f (message : string) f' :
  while_loop fuel f = Some (Threw message f') ->
  exists g w, rtc continues f g /\ model_call g = (inl message, w).
Proof.
  revert f. induction fuel as [|fuel IH]; intros f; simpl;
    destruct (Nat.ltb_spec (iteration f) maxIterations) as [Hlt|Hge]; try done.
  destruct (messages_create _ _ _) as [[message'|response] w] eqn:Hcall.
  - intros [= <- <-]. exists f, w. split; [apply rtc_refl | done].
  - destruct (negb (toolUseDetected (for_content response (enter_round w f))))
      eqn:Hdetected; [done |].
    destruct (Nat.eqb_spec (iteration (for_content response (enter_round w f)))
                           maxIterations) as [Hcap|Hcap].
    + destruct fuel as [|fuel']; simpl;
        destruct (Nat.ltb_spec (iteration (for_content response (enter_round w f)))
                               maxIterations); try done; cap_lia.
    + intros Hr. destruct (IH _ Hr) as (g & w' & Hreach & Hg).
      exists g, w'. split; [| done].
      eapply rtc_l; [| exact Hreach].
      apply continues_round; try done. by apply negb_false_iff.
Qed.

(** A round whose response holds a tool request: the blocks after it are
    processed, the loop goes on, and the query ends with a result whose
    history still has everything written for the request. *)
Lemma round_with_request (query : string) c w f w1 before block after :
  rtc continues (start_frame query c w) f ->
  model_call f = (inr (before ++ block :: after), w1) ->
  is_tool_use block = true ->
  let g := for_content before (enter_round w1 f) in
  let f1 := after_round (before ++ block :: after) w1 f in
  f1 = for_content after (handle_content block g) /\
  (forall fuel : nat,
     while_loop (S fuel) f =
     while_loop fuel (if (iteration f1 =? maxIterations)%nat
                      then add_notice f1 else f1)) /\
  exists r more,
    processQuery query c w =
      Some (answer r, this (frame_of r), world (frame_of r)) /\
    conversationHistory (this (frame_of r)) =
      conversationHistory (this (handle_content block g)) ++ more /\
    (forall message f', r = Threw message f' ->
       exists h w', rtc continues (start_frame query c w) h /\
                    model_call h = (inl message, w')).
Proof.
  intros Hreach Hcall Htool g f1.
  assert (f1 = for_content after (handle_content block g)) as Hf1.
  { subst f1 g. unfold after_round. by rewrite for_content_app. }
  assert (iteration f < maxIterations)%nat as Hlt
    by (apply (reached_iteration _ _ Hreach); cap_lia).
  assert (toolUseDetected f1 = true) as Hdetected.
  { subst f1. rewrite after_round_detected, existsb_app. simpl.
    by rewrite Htool, orb_true_r. }
  assert (forall fuel : nat,
            while_loop (S fuel) f =
            while_loop fuel (if (iteration f1 =? maxIterations)%nat
                             then add_notice f1 else f1)) as Hstep.
  { intros fuel. rewrite while_loop_step, Hcall by done. cbv zeta.
    fold f1. by rewrite Hdetected. }
  split; [done |]. split; [done |].
  destruct (while_loop_total maxIterations
              (if (iteration f1 =? maxIterations)%nat then add_notice f1 else f1))
    as (r & Hr & _); [cap_lia |].
  assert (while_loop maxIterations (start_frame query c w) = Some r) as H0.
  { apply (start_result _ _ _ f (S maxIterations)); [done | | done].
    by rewrite Hstep. }
  destruct (while_loop_history _ _ _ Hr) as [more1 Hmore1].
  destruct (for_content_history after (handle_content block g)) as [more2 Hmore2].
  exists r, (more2 ++ more1). split; [by apply processQuery_result |]. split.
  - rewrite Hmore1, app_assoc, <- Hmore2, <- Hf1.
    by destruct (iteration f1 =? maxIterations)%nat.
  - intros message f' ->. destruct (threw_by_model_call _ _ _ _ H0) as (h & w' & ? & ?).
    by exists h, w'.
Qed.

(** C7: when none of the three strategies matches the requested name in the
    catalog, [findToolByName] answers [undefined] (it does not throw); the
    loop appends one user turn holding a [tool_result] for the request's id
    with the "not found" text and [is_error: true], notes the error in the
    buffer, calls nothing, and goes on with the remaining blocks of the same
    response and with the loop. The query does not fail by it:
    [processQuery] returns a result that keeps the outcome turn in the
    history, and it can only be the apology text when a model call was
    rejected. *)
Theorem unresolved_request_recorded (query : string) c w f w1
    before (id toolName : string) args after :
  rtc continues (start_frame query c w) f ->
  model_call f = (inr (before ++ ToolUseBlock id toolName args :: after), w1) ->
  (forall tool, In tool (allTools c) ->
     exact_pred toolName tool = false /\
     suffix_pred toolName tool = false /\
     flexible_pred toolName tool = false) ->
  let g := for_content before (enter_round w1 f) in
  let g' := handle_content (ToolUseBlock id toolName args) g in
  findToolByName (this g) toolName = None /\
  conversationHistory (this g') =
    conversationHistory (this g) ++
    [{| role := user;
        msg_content :=
          Blocks [tool_result id ("Error: Tool " +:+ toolName +:+ " not found")
                              (Some true)] |}] /\
  finalResponse g' =
    finalResponse g +:+ "[Error: Tool " +:+ toolName +:+ " not found]" +:+ nl /\
  world g' = world g /\
  after_round (before ++ ToolUseBlock id toolName args :: after) w1 f =
    for_content after g' /\
  (forall fuel : nat,
     while_loop (S fuel) f =
     while_loop fuel
       (if (iteration (for_content after g') =? maxIterations)%nat
        then add_notice (for_content after g') else for_content after g')) /\
  exists r more,
    processQuery query c w =
      Some (answer r, this (frame_of r), world (frame_of r)) /\
    conversationHistory (this (frame_of r)) =
      conversationHistory (this g') ++ more /\
    (forall message f', r = Threw message f' ->
       exists h w', rtc continues (start_frame query c w) h /\
                    model_call h = (inl message, w')).
Proof.
  intros Hreach Hcall Hnone g g'.
  assert (allTools (this g) = allTools c) as Hcatalog.
  { subst g. destruct (for_content_catalog before (enter_round w1 f)) as [-> _].
    simpl. by destruct (reached_catalog _ _ Hreach) as [-> _]. }
  assert (findToolByName (this g) toolName = None) as Hfind.
  { apply findToolByName_unmatched. by rewrite Hcatalog. }
  destruct (round_with_request query c w f w1 before
              (ToolUseBlock id toolName args) after Hreach Hcall eq_refl)
    as (Hafter & Hstep & Hresult).
  fold g in Hafter, Hresult. fold g' in Hafter, Hresult.
  rewrite Hafter in Hstep.
  assert (g' =
          {| finalResponse :=
               finalResponse g +:+ "[Error: Tool " +:+ toolName +:+ " not found]"
               +:+ nl;
             iteration := iteration g;
             toolUseDetected := true;
             this := push (user_tool_result id
                             ("Error: Tool " +:+ toolName +:+ " not found")
                             (Some true)) (this g);
             world := world g |}) as Hg'.
  { subst g'. simpl. by rewrite Hfind. }
  split; [done |].
  split; [by rewrite Hg' |]. split; [by rewrite Hg' |]. split; [by rewrite Hg' |].
  done.
Qed.

(** C9: in multi-server mode a name without the separator reaches no
    provider: [callTool] throws "Invalid tool name format" and leaves the
    world as it was. When the resolver hands such a name to the loop, the
    loop appends the assistant turn with the [tool_use] request and a user
    turn with a [tool_result] for the same id, the text
    "Error: Invalid tool name format: ..." and [is_error: true], notes the
    error in the buffer, and goes on with the remaining blocks and with the
    loop. The query is not aborted by it: [processQuery] returns a result
    that keeps both turns, and it can only be the apology text when a model
    call was rejected. *)
Theorem invalid_tool_name_recorded (fullToolName : string) :
  Js.indexOf fullToolName sep = -1 ->
  (forall c args w, mode c = multi ->
     callTool c fullToolName args w =
     (inl ("Invalid tool name format: " +:+ fullToolName), w)) /\
  (forall (query : string) c w f w1 before (id toolName : string) args after,
     rtc continues (start_frame query c w) f ->
     model_call f = (inr (before ++ ToolUseBlock id toolName args :: after), w1) ->
     mode c = multi ->
     findToolByName c toolName = Some fullToolName ->
     fullToolName <> EmptyString ->
     let g := for_content before (enter_round w1 f) in
     let g' := handle_content (ToolUseBlock id toolName args) g in
     conversationHistory (this g') =
       conversationHistory (this g) ++
       [{| role := assistant;
           msg_content := Blocks [tool_use id toolName args] |};
        {| role := user;
           msg_content :=
             Blocks [tool_result id
                       ("Error: Invalid tool name format: " +:+ fullToolName)
                       (Some true)] |}] /\
     finalResponse g' =
       finalResponse g +:+ "[Tool error: Invalid tool name format: " +:+
       fullToolName +:+ "]" +:+ nl /\
     world g' = world g /\
     after_round (before ++ ToolUseBlock id toolName args :: after) w1 f =
       for_content after g' /\
     (forall fuel : nat,
        while_loop (S fuel) f =
        while_loop fuel
          (if (iteration (for_content after g') =? maxIterations)%nat
           then add_notice (for_content after g') else for_content after g')) /\
     exists r more,
       processQuery query c w =
         Some (answer r, this (frame_of r), world (frame_of r)) /\
       conversationHistory (this (frame_of r)) =
         conversationHistory (this g') ++ more /\
       (forall message f', r = Threw message f' ->
          exists h w', rtc continues (start_frame query c w) h /\
                       model_call h = (inl message, w'))).
Proof.
  intros Hsep. split.
  - intros c args w Hmode. by apply callTool_no_separator.
  - intros query c w f w1 before id toolName args after
           Hreach Hcall Hmode Hfind Hne g g'.
    assert (allTools (this g) = allTools c /\ mode (this g) = multi)
      as [Hcatalog Hmode_g].
    { subst g. destruct (for_content_catalog before (enter_round w1 f)) as [-> ->].
      simpl. destruct (reached_catalog _ _ Hreach) as [-> ->]. by simpl. }
    assert (findToolByName (this g) toolName = Some fullToolName) as Hfind_g.
    { rewrite <- Hfind. unfold findToolByName. by rewrite Hcatalog. }
    destruct (round_with_request query c w f w1 before
                (ToolUseBlock id toolName args) after Hreach Hcall eq_refl)
      as (Hafter & Hstep & Hresult).
    fold g in Hafter, Hresult. fold g' in Hafter, Hresult.
    rewrite Hafter in Hstep.
    assert (g' =
            {| finalResponse :=
                 finalResponse g +:+ "[Tool error: " +:+
                 ("Invalid tool name format: " +:+ fullToolName) +:+ "]" +:+ nl;
               iteration := iteration g;
               toolUseDetected := true;
               this := push (user_tool_result id
                               ("Error: " +:+ "Invalid tool name format: "
                                +:+ fullToolName) (Some true))
                            (push (assistant_tool_use id toolName args) (this g));
               world := world g |}) as Hg'.
    { subst g'. simpl. rewrite Hfind_g.
      destruct fullToolName as [|a s]; [done |].
      by rewrite callTool_no_separator. }
    split; [| split; [| split; [| split; [done | split; [done | done]]]]].
    + rewrite Hg'. simpl. by rewrite <- app_assoc.
    + rewrite Hg'. simpl. by rewrite !append_assoc.
    + by rewrite Hg'.
Qed.

End Loop.

(** ** The properties on concrete runs *)

Module Runs.

Import Demo.

Local Ltac list_cases H :=
  repeat (destruct H as [H|H]; [try (injection H as <- <-) |]); try destruct H.

Local Ltac no_dup :=
  repeat (constructor; [simpl; intuition discriminate |]); constructor.

(** C1: the model asks for the unregistered tool ["delete_universe"]. The
    history gets the error outcome for ["toolu_1"] but no request turn at
    all: the outcome's correlation id belongs to no recorded request. *)
Lemma unresolved_request_not_recorded :
  let run := processQuery stringify (scripted unknown_tool_script) "hi" two_servers 0%nat in
  let history := default [] ((fun r => conversationHistory r.1.2) <$> run) in
  history =
    [user_text "hi";
     user_tool_result "toolu_1" "Error: Tool delete_universe not found" (Some true);
     assistant_text "done"] /\
  flat_map outcome_ids history = ["toolu_1"] /\
  flat_map request_ids history = [].
Proof. vm_compute. done. Qed.

(** C2: with the two stock providers, ["read_file"] is the local name of one
    tool only and is registered as ["filesystem_read_file"]; yet the suffix
    strategy matches nothing, because it compares the last ["_"]-segment
    (["file"]) and not the name without its prefix, and the bare name
    resolves to another tool, ["filesystem_write_file"]. In the same way a
    separator-free bare name is captured by an earlier tool whose local name
    merely ends in it. *)
Lemma bare_name_resolves_to_other_tool :
  map name (allTools two_servers) =
    ["filesystem_write_file"; "filesystem_read_file"; "github_create_repository"] /\
  find (suffix_pred "read_file") (allTools two_servers) = None /\
  findToolByName two_servers "read_file" = Some "filesystem_write_file" /\
  map name (allTools shadowed) = ["a_x_read"; "fs_read"] /\
  findToolByName shadowed "read" = Some "a_x_read".
Proof. vm_compute. done. Qed.

Lemma resolve_bare_name_witness :
  In ("fs" +:+ sep_s +:+ "read")
     (map name (allTools (connect_all plain new_MCPClient))) /\
  find (exact_pred "read") (allTools (connect_all plain new_MCPClient)) = None /\
  (exists suffixMatch,
     find (suffix_pred "read") (allTools (connect_all plain new_MCPClient))
       = Some suffixMatch /\
     name suffixMatch = "fs" +:+ sep_s +:+ "read") /\
  findToolByName (connect_all plain new_MCPClient) "read"
    = Some ("fs" +:+ sep_s +:+ "read").
Proof.
  destruct (resolve_bare_name plain "fs" (provider ["read"]) "read")
    as [Hin Hresolve].
  - right. by left.
  - by left.
  - split; [exact Hin |]. apply Hresolve; [reflexivity |].
    intros other Hother Hne. list_cases Hother.
    + vm_compute. discriminate.
    + exfalso. by apply Hne.
Defined.

(** C3 fails as stated: ["github"] matches ["github_create_repository"]
    through the provider prefix; it neither contains nor is contained in the
    final segment ["repository"]. *)
Lemma flexible_pred_counterexample :
  flexible_pred "github" create_repository = true /\
  final_segment (name create_repository) "repository" /\
  ~ substring_of (Js.toLowerCase "github") (Js.toLowerCase "repository") /\
  ~ substring_of (Js.toLowerCase "repository") (Js.toLowerCase "github").
Proof.
  split; [reflexivity |]. split.
  - apply final_segment_pop. reflexivity.
  - split; intros H; apply JsFacts.includes_spec in H; discriminate H.
Qed.

(** C4 fails as stated: provider ["a"] with tool ["b_c"] and provider
    ["a_b"] with tool ["c"] have distinct ids and unique local names, and both
    tools get the effective name ["a_b_c"]. *)
Lemma effective_names_counterexample :
  List.NoDup (map fst colliding) /\
  (forall p conn, In (p, conn) colliding -> List.NoDup (local_names conn)) /\
  map name (allTools (connect_all colliding new_MCPClient)) = ["a_b_c"; "a_b_c"] /\
  ~ List.NoDup (map name (allTools (connect_all colliding new_MCPClient))).
Proof.
  split; [no_dup |]. split.
  - intros p conn H. list_cases H; no_dup.
  - split; [reflexivity |]. intros H. apply NoDup_cons_iff in H as [H _].
    apply H. by left.
Qed.

Lemma effective_names_distinct_witness :
  List.NoDup
    (map name
       (allTools
          (connect_all
             [("filesystem", provider ["write_file"; "read_file"]);
              ("github", provider ["write_file"])] new_MCPClient))).
Proof.
  apply effective_names_distinct.
  - no_dup.
  - intros p conn H. list_cases H; (split; [reflexivity | no_dup]).
Defined.

Lemma callTool_multi_dispatch_witness :
  callTool two_servers ("filesystem" +:+ sep_s +:+ "write_file") "{}" 7%nat =
    (inr {| content := inl "ok write_file" |}, 7%nat) /\
  callTool two_servers ("gitlab" +:+ sep_s +:+ "write_file") "{}" 7%nat =
    (inl "No client found for server type: gitlab", 7%nat).
Proof.
  split; rewrite callTool_multi_dispatch; reflexivity.
Defined.

Lemma unresolved_request_recorded_witness :
  let model := scripted [inr [TextBlock "hm"; asks "toolu_1" "delete_universe";
                              TextBlock "next"];
                         inr [TextBlock "done"]] in
  let g := for_content stringify [TextBlock "hm"]
             (enter_round 1%nat (start_frame "hi" two_servers 0%nat)) in
  let g' := handle_content stringify (ToolUseBlock "toolu_1" "delete_universe" "{}") g in
  findToolByName two_servers "delete_universe" = None /\
  conversationHistory (this g') =
    [{| role := user; msg_content := Text "hi" |};
     {| role := assistant; msg_content := Text "hm" |};
     {| role := user;
        msg_content :=
          Blocks [tool_result "toolu_1" "Error: Tool delete_universe not found"
                              (Some true)] |}] /\
  finalResponse g' =
    "hm" +:+ nl +:+ "[Error: Tool delete_universe not found]" +:+ nl /\
  world g' = 1%nat /\
  exists r more,
    processQuery stringify model "hi" two_servers 0%nat =
      Some (answer r, this (frame_of r), world (frame_of r)) /\
    conversationHistory (this (frame_of r)) =
      [{| role := user; msg_content := Text "hi" |};
       {| role := assistant; msg_content := Text "hm" |};
       {| role := user;
          msg_content :=
            Blocks [tool_result "toolu_1" "Error: Tool delete_universe not found"
                                (Some true)] |}] ++ more /\
    forall message f', r <> Threw message f'.
Proof.
  intros model g g'.
  destruct (unresolved_request_recorded stringify model "hi" two_servers 0%nat
              (start_frame "hi" two_servers 0%nat) 1%nat
              [TextBlock "hm"] "toolu_1" "delete_universe" "{}" [TextBlock "next"])
    as (Hnone & Hhistory & Hbuffer & Hworld & _ & _ & r & more & Hquery & Hkept & Hthrew).
  - apply rtc_refl.
  - reflexivity.
  - intros tool H. list_cases H; by vm_compute.
  - split; [exact Hnone |]. split; [exact Hhistory |].
    split; [exact Hbuffer |]. split; [exact Hworld |].
    exists r, more. split; [exact Hquery |]. split; [exact Hkept |].
    intros message f' Hr. destruct (Hthrew _ _ Hr) as (h & w' & _ & Hcall).
    unfold model, scripted in Hcall. injection Hcall as Hcall _.
    by destruct (world h) as [|[|[|n]]].
Defined.

Lemma invalid_tool_name_recorded_witness :
  let model := scripted [inr [asks "toolu_1" "ping"; TextBlock "next"];
                         inr [TextBlock "done"]] in
  let g := enter_round 1%nat (start_frame "hi" mixed 0%nat) in
  let g' := handle_content stringify (ToolUseBlock "toolu_1" "ping" "{}") g in
  callTool mixed "ping" "{}" 7%nat =
    (inl "Invalid tool name format: ping", 7%nat) /\
  conversationHistory (this g') =
    [{| role := user; msg_content := Text "hi" |};
     {| role := assistant;
        msg_content := Blocks [tool_use "toolu_1" "ping" "{}"] |};
     {| role := user;
        msg_content :=
          Blocks [tool_result "toolu_1" "Error: Invalid tool name format: ping"
                              (Some true)] |}] /\
  finalResponse g' = "[Tool error: Invalid tool name format: ping]" +:+ nl /\
  world g' = 1%nat /\
  exists r more,
    processQuery stringify model "hi" mixed 0%nat =
      Some (answer r, this (frame_of r), world (frame_of r)) /\
    conversationHistory (this (frame_of r)) =
      [{| role := user; msg_content := Text "hi" |};
       {| role := assistant;
          msg_content := Blocks [tool_use "toolu_1" "ping" "{}"] |};
       {| role := user;
          msg_content :=
            Blocks [tool_result "toolu_1" "Error: Invalid tool name format: ping"
                                (Some true)] |}] ++ more /\
    forall message f', r <> Threw message f'.
Proof.
  intros model g g'.
  destruct (invalid_tool_name_recorded (World:=World) stringify model "ping" eq_refl)
    as [Hcall Hloop].
  split; [by apply Hcall |].
  destruct (Hloop "hi" mixed 0%nat (start_frame "hi" mixed 0%nat) 1%nat
              [] "toolu_1" "ping" "{}" [TextBlock "next"])
    as (Hhistory & Hbuffer & Hworld & _ & _ & r & more & Hquery & Hkept & Hthrew);
    [apply rtc_refl | reflexivity | reflexivity | reflexivity | discriminate |].
  split; [exact Hhistory |]. split; [exact Hbuffer |]. split; [exact Hworld |].
  exists r, more. split; [exact Hquery |]. split; [exact Hkept |].
  intros message f' Hr. destruct (Hthrew _ _ Hr) as (h & w' & _ & Hmodel).
  unfold model, scripted in Hmodel. injection Hmodel as Hmodel _.
  by destruct (world h) as [|[|[|n]]].
Defined.

Lemma clear_resets_history_only_witness :
  exists c',
    chatLoop_body stringify (scripted []) "Clear"
      (push (user_text "hi") two_servers) 3%nat = Some (Continue, c', 3%nat) /\
    conversationHistory c' = [] /\
    allTools c' = allTools (push (user_text "hi") two_servers) /\
    mcpClients c' = mcpClients (push (user_text "hi") two_servers) /\
    transports c' = transports (push (user_text "hi") two_servers) /\
    mode c' = mode (push (user_text "hi") two_servers).
Proof. by apply clear_resets_history_only. Defined.

(** The frames of a scripted run, round by round. *)
Local Ltac next_round script response w :=
  eapply rtc_l;
  [ apply (continues_round stringify (scripted script) _ response w);
    [ vm_compute; lia | reflexivity | reflexivity | vm_compute; discriminate ]
  | ].

Lemma query_loop_bounded_witness :
  (exists r,
     while_loop stringify (scripted persistent_script) maxIterations
       (start_frame "hi" two_servers 0%nat) = Some r /\
     iteration (frame_of r) = 3%nat /\
     world (frame_of r) = 3%nat /\
     answer r =
       "[Used tool: filesystem_write_file]" +:+ nl +:+
       "[Used tool: filesystem_write_file]" +:+ nl +:+
       "[Used tool: github_create_repository]" +:+ nl +:+
       "Maximum tool iterations reached.") /\
  (exists r,
     while_loop stringify (scripted [inr [TextBlock "hello"]; inr [asks "t" "x"]])
       maxIterations (start_frame "hi" two_servers 0%nat) = Some r /\
     iteration (frame_of r) = 1%nat /\
     world (frame_of r) = 1%nat /\
     answer r = "hello" +:+ nl).
Proof.
  split.
  - destruct (query_loop_bounded stringify (scripted persistent_script)
                "hi" two_servers 0%nat) as (r & Hfuel & _ & _ & _ & Hthird).
    exists r. split; [by apply Hfuel |].
    rewrite (Hthird
               (after_round stringify [asks "t2" "read_file"] 2%nat
                  (after_round stringify [asks "t1" "write_file"] 1%nat
                     (start_frame "hi" two_servers 0%nat)))
               [asks "t3" "create_repository"] 3%nat).
    + by vm_compute.
    + next_round persistent_script [asks "t1" "write_file"] 1%nat.
      next_round persistent_script [asks "t2" "read_file"] 2%nat.
      apply rtc_refl.
    + reflexivity.
    + reflexivity.
    + reflexivity.
  - destruct (query_loop_bounded stringify
                (scripted [inr [TextBlock "hello"]; inr [asks "t" "x"]])
                "hi" two_servers 0%nat) as (r & Hfuel & _ & _ & Htext & _).
    exists r. split; [by apply Hfuel |].
    rewrite (Htext (start_frame "hi" two_servers 0%nat) [TextBlock "hello"] 1%nat);
      [by vm_compute | apply rtc_refl | reflexivity | reflexivity].
Defined.

Lemma model_failure_keeps_history_witness :
  exists c',
    processQuery stringify (scripted failing_script) "hi" two_servers 0%nat =
      Some ("Sorry, I encountered an error: overloaded", c', 2%nat) /\
    conversationHistory c' =
      [user_text "hi"; assistant_text "let me see";
       assistant_tool_use "t1" "write_file" "{}";
       user_tool_result "t1" "ok write_file" None].
Proof.
  destruct (model_failure_keeps_history stringify (scripted failing_script)
              "hi" two_servers 0%nat
              (after_round stringify
                 [TextBlock "let me see"; asks "t1" "write_file"] 1%nat
                 (start_frame "hi" two_servers 0%nat))
              "overloaded" 2%nat) as [Hquery _].
  - next_round failing_script [TextBlock "let me see"; asks "t1" "write_file"] 1%nat.
    apply rtc_refl.
  - reflexivity.
  - eexists. split; [exact Hquery | reflexivity].
Defined.

End Runs.

(** ** More on the resolver *)

Section ResolverOrder.

Context {Json World : Type}.
Implicit Types (c : @MCPClient Json World) (tool : @Tool Json).

Import JsFacts.

Lemma find_first {A} (f : A -> bool) (l1 l2 : list A) (x : A) :
  f x = true -> (forall y, In y l1 -> f y = false) ->
  find f (l1 ++ x :: l2) = Some x.
Proof.
  intros Hx. induction l1 as [|y l1 IH]; intros H; simpl.
  - by rewrite Hx.
  - rewrite (H y) by (by left). apply IH. intros z Hz. apply H. by right.
Qed.

Lemma includes_empty (s : string) : Js.includes s EmptyString = true.
Proof. by destruct s. Qed.

Lemma find_exact_name c tool :
  In tool (allTools c) ->
  exists m, find (exact_pred (name tool)) (allTools c) = Some m /\
            name m = name tool.
Proof.
  intros Hin.
  destruct (find_present (exact_pred (name tool)) _ tool Hin)
    as (m & Hfind & _ & Hm).
  - unfold exact_pred. apply String.eqb_refl.
  - exists m. split; [done |]. unfold exact_pred in Hm. by apply String.eqb_eq.
Qed.

(** X1: a requested name that is literally the effective name of a catalog
    entry resolves to itself, whatever else the catalog holds. *)
Theorem exact_match_wins c tool :
  In tool (allTools c) -> findToolByName c (name tool) = Some (name tool).
Proof.
  intros Hin. unfold findToolByName.
  destruct (find_exact_name c tool Hin) as (m & -> & Hm). by rewrite Hm.
Qed.

(** X2: a resolved name is always the effective name of a catalog entry that
    one of the three strategies matches. *)
Theorem resolved_name_in_catalog c (baseName n : string) :
  findToolByName c baseName = Some n ->
  exists tool, In tool (allTools c) /\ name tool = n /\
    (exact_pred baseName tool = true \/ suffix_pred baseName tool = true \/
     flexible_pred baseName tool = true).
Proof.
  unfold findToolByName.
  destruct (find (exact_pred baseName) _) as [m|] eqn:E1.
  { intros [= <-]. apply find_some in E1 as [? ?]. exists m. tauto. }
  destruct (find (suffix_pred baseName) _) as [m|] eqn:E2.
  { intros [= <-]. apply find_some in E2 as [? ?]. exists m. tauto. }
  destruct (find (flexible_pred baseName) _) as [m|] eqn:E3; [| done].
  intros [= <-]. apply find_some in E3 as [? ?]. exists m. tauto.
Qed.

Lemma findToolByName_none_inv c (baseName : string) tool :
  findToolByName c baseName = None -> In tool (allTools c) ->
  exact_pred baseName tool = false /\
  suffix_pred baseName tool = false /\
  flexible_pred baseName tool = false.
Proof.
  unfold findToolByName. intros H Hin.
  destruct (find (exact_pred baseName) _) eqn:E1; [done |].
  destruct (find (suffix_pred baseName) _) eqn:E2; [done |].
  destruct (find (flexible_pred baseName) _) eqn:E3; [done |].
  repeat split; eapply find_none; eauto.
Qed.

(** X3: the resolver answers [undefined] exactly when no strategy matches
    any entry. *)
Theorem unresolved_iff_unmatched c (baseName : string) :
  findToolByName c baseName = None <->
  forall tool, In tool (allTools c) ->
    exact_pred baseName tool = false /\
    suffix_pred baseName tool = false /\
    flexible_pred baseName tool = false.
Proof.
  split.
  - intros H tool Hin. by apply (findToolByName_none_inv c).
  - intros H. by apply findToolByName_unmatched.
Qed.

Lemma findToolByName_suffix_first c (baseName : string) (l1 l2 : list Tool) tool :
  allTools c = l1 ++ tool :: l2 ->
  (forall t, In t (allTools c) -> exact_pred baseName t = false) ->
  suffix_pred baseName tool = true ->
  (forall t, In t l1 -> suffix_pred baseName t = false) ->
  findToolByName c baseName = Some (name tool).
Proof.
  intros Hcat Hexact Htool Hbefore. unfold findToolByName.
  rewrite (find_absent _ _ Hexact). by rewrite Hcat, find_first.
Qed.

Lemma findToolByName_flexible_first c (baseName : string) (l1 l2 : list Tool) tool :
  allTools c = l1 ++ tool :: l2 ->
  (forall t, In t (allTools c) -> exact_pred baseName t = false) ->
  (forall t, In t (allTools c) -> suffix_pred baseName t = false) ->
  flexible_pred baseName tool = true ->
  (forall t, In t l1 -> flexible_pred baseName t = false) ->
  findToolByName c baseName = Some (name tool).
Proof.
  intros Hcat Hexact Hsuffix Htool Hbefore. unfold findToolByName.
  rewrite (find_absent _ _ Hexact), (find_absent _ _ Hsuffix).
  by rewrite Hcat, find_first.
Qed.

(** X4: without an exact match, the first entry in catalog order whose last
    segment is the requested name wins; without a suffix match either, the
    first entry the flexible strategy matches wins. *)
Theorem strategies_in_catalog_order c (baseName : string) (l1 l2 : list Tool) tool :
  allTools c = l1 ++ tool :: l2 ->
  (forall t, In t (allTools c) -> exact_pred baseName t = false) ->
  (suffix_pred baseName tool = true ->
   (forall t, In t l1 -> suffix_pred baseName t = false) ->
   findToolByName c baseName = Some (name tool)) /\
  ((forall t, In t (allTools c) -> suffix_pred baseName t = false) ->
   flexible_pred baseName tool = true ->
   (forall t, In t l1 -> flexible_pred baseName t = false) ->
   findToolByName c baseName = Some (name tool)).
Proof.
  intros Hcat Hexact. split.
  - intros. by eapply findToolByName_suffix_first.
  - intros. by eapply findToolByName_flexible_first.
Qed.

(** X5: the empty requested name is matched by the flexible strategy on every
    entry: on a non-empty catalog it always resolves, and to the first entry
    unless some entry is matched exactly or by suffix. *)
Theorem empty_name_resolves c tool (rest : list Tool) :
  allTools c = tool :: rest ->
  exists n, findToolByName c EmptyString = Some n /\
    ((forall t, In t (allTools c) ->
        exact_pred EmptyString t = false /\ suffix_pred EmptyString t = false) ->
     n = name tool).
Proof.
  intros Hcat.
  assert (flexible_pred EmptyString tool = true) as Hflex.
  { unfold flexible_pred. simpl. by rewrite includes_empty. }
  destruct (findToolByName c EmptyString) as [n|] eqn:E.
  - exists n. split; [done |]. intros Hnone.
    rewrite (findToolByName_flexible_first c EmptyString [] rest tool) in E;
      [congruence | done | apply Hnone .. | done | by intros ? []].
  - apply (findToolByName_none_inv c _ tool) in E;
      [| rewrite Hcat; by left].
    destruct E as (_ & _ & E). congruence.
Qed.

End ResolverOrder.

(** ** Registration followed by dispatch *)

Section RegisterDispatch.

Context {Json World : Type}.
Implicit Types (c : @MCPClient Json World) (tool : @Tool Json).
Implicit Types (conn : @Connection Json World) (client : @Client Json World).
Implicit Types (w : World) (args : Json).

Import JsFacts.

Lemma callTool_registered c (p t : string) client args w :
  mode c = multi -> Js.indexOf p sep = -1 ->
  mcpClients c !! p = Some client ->
  callTool c (p +:+ sep_s +:+ t) args w = client_callTool client t args w.
Proof.
  intros Hmode Hp Hclient. unfold callTool.
  rewrite Hmode, sep_s_append, (indexOf_first p t sep Hp).
  destruct (Z.eqb_spec (Z.of_nat (String.length p)) (-1)) as [|_]; [lia |].
  by rewrite substring_prefix, substring_from_suffix, Hclient.
Qed.

Lemma connect_clients (serverType : string) client (transport : Transport)
    (listed : list McpTool) c :
  mcpClients (connectToMultipleServers serverType (inr (client, transport, listed)) c).2
  = <[serverType := client]> (mcpClients c).
Proof. reflexivity. Qed.

Lemma connect_all_clients_other (providers : list (string * Connection)) c (p : string) :
  ~ In p (map fst providers) ->
  mcpClients (connect_all providers c) !! p = mcpClients c !! p.
Proof.
  revert c. induction providers as [|[q [[client transport] listed]] providers IH];
    intros c Hp; [done |].
  rewrite connect_all_cons, IH by (intros H; apply Hp; by right).
  simpl. rewrite lookup_insert_ne; [done |]. intros ->. apply Hp. by left.
Qed.

Lemma connect_all_clients (providers : list (string * Connection)) c
    (p : string) client (transport : Transport) (listed : list McpTool) :
  List.NoDup (map fst providers) ->
  In (p, (client, transport, listed)) providers ->
  mcpClients (connect_all providers c) !! p = Some client.
Proof.
  revert c. induction providers as [|r providers IH]; intros c Hids Hin; [done |].
  simpl in Hids. apply NoDup_cons_iff in Hids as [Hr Hids].
  rewrite connect_all_cons. destruct Hin as [->|Hin].
  - rewrite connect_all_clients_other by done.
    simpl. by rewrite lookup_insert_eq.
  - by apply IH.
Qed.

(** X6: after registering providers under pairwise distinct, separator-free
    ids, a call to [p ++ "_" ++ t] reaches the client registered as [p] with
    the local name [t], for every [t], listed or not. *)
Theorem registered_provider_dispatch (providers : list (string * Connection)) c
    (p : string) client (transport : Transport) (listed : list McpTool)
    (t : string) args w :
  List.NoDup (map fst providers) ->
  In (p, (client, transport, listed)) providers ->
  Js.indexOf p sep = -1 ->
  callTool (connect_all providers c) (p +:+ sep_s +:+ t) args w =
  client_callTool client t args w.
Proof.
  intros Hids Hin Hp. apply callTool_registered; [| done |].
  - apply connect_all_mode. by intros ->.
  - by eapply connect_all_clients.
Qed.

(** X7: connecting the same server type twice keeps both listings in the
    catalog and replaces the client: every call under that prefix, also for
    tools only the first connection listed, goes to the second client. *)
Theorem reconnect_replaces_client (p : string) client1 client2
    (transport1 transport2 : Transport) (listed1 listed2 : list McpTool) c :
  let c' := (connectToMultipleServers p (inr (client2, transport2, listed2))
               (connectToMultipleServers p (inr (client1, transport1, listed1)) c).2).2 in
  map name (allTools c') =
    map name (allTools c) ++
    map (fun t => p +:+ sep_s +:+ t) (map mcp_name listed1) ++
    map (fun t => p +:+ sep_s +:+ t) (map mcp_name listed2) /\
  (Js.indexOf p sep = -1 ->
   forall (t : string) args w,
     callTool c' (p +:+ sep_s +:+ t) args w = client_callTool client2 t args w).
Proof.
  intros c'. split.
  - subst c'.
    rewrite (connect_names p (client2, transport2, listed2)).
    rewrite (connect_names p (client1, transport1, listed1)).
    by rewrite <- app_assoc.
  - intros Hp t args w. apply callTool_registered; [done | done |].
    subst c'. rewrite connect_clients. by rewrite lookup_insert_eq.
Qed.

(** X8: after [connectToServer] the catalog is exactly the server's listing,
    replacing any earlier catalog, and every call goes to that server with
    the name unchanged. *)
Theorem single_server_dispatch client (transport : Transport)
    (listed : list McpTool) c :
  let c' := (connectToServer (inr (client, transport, listed)) c).2 in
  map name (allTools c') = map mcp_name listed /\
  forall (toolName : string) args w,
    callTool c' toolName args w = client_callTool client toolName args w.
Proof.
  intros c'. split.
  - subst c'. simpl. by rewrite map_map.
  - intros toolName args w. subst c'. unfold callTool. simpl.
    by rewrite lookup_insert_eq.
Qed.


End RegisterDispatch.

(** ** The transport choice *)

Section LaunchFacts.

Context {Json World URL : Type} (new_URL : string -> string + URL).
Context (open : @Launch URL -> World -> (string + @Connection Json World) * World).
Implicit Types (c : @MCPClient Json World) (w : World).

Import JsFacts.

Lemma endsWith_same_length (s p q : string) :
  JsMore.endsWith s p = true -> JsMore.endsWith s q = true ->
  String.length p = String.length q -> p = q.
Proof.
  unfold JsMore.endsWith. rewrite !andb_true_iff, !String.eqb_eq.
  intros [_ Hp] [_ Hq] Hlen. rewrite Hlen in Hp. congruence.
Qed.

Lemma js_not_py (target : string) :
  JsMore.endsWith target ".js" = true -> JsMore.endsWith target ".py" = false.
Proof.
  intros Hjs. destruct (JsMore.endsWith target ".py") eqn:Hpy; [| done].
  by pose proof (endsWith_same_length _ _ _ Hjs Hpy eq_refl).
Qed.

Lemma remote_truthy (target : string) :
  is_remote target = true -> JsMore.truthy (Some target) = true.
Proof. by destruct target. Qed.

(** X10: a script target is launched with [node] when it ends in [.js], with
    the platform's Python when it ends in [.py], always with the target as
    the only argument; any other target is rejected. *)
Theorem script_command (rejected platform target : string)
    (env : option (gmap string string)) :
  (JsMore.endsWith target ".js" = true ->
   script_params rejected platform target env =
   inr {| command := "node"; args := [target]; env := env |}) /\
  (JsMore.endsWith target ".py" = true ->
   script_params rejected platform target env =
   inr {| command := if String.eqb platform "win32" then "python" else "python3";
          args := [target]; env := env |}) /\
  (JsMore.endsWith target ".js" = false -> JsMore.endsWith target ".py" = false ->
   script_params rejected platform target env = inl rejected).
Proof.
  unfold script_params. split; [| split].
  - intros Hjs. by rewrite Hjs, (js_not_py _ Hjs).
  - intros Hpy. rewrite Hpy. by rewrite andb_false_r.
  - intros Hjs Hpy. by rewrite Hjs, Hpy.
Qed.

(** X11: [connectToServer] with a local target that ends neither in [.js]
    nor in [.py] opens nothing: it throws, the world is untouched and the
    client only has its mode set to single. *)
Theorem local_target_rejected (platform target : string) c w :
  is_remote target = false ->
  JsMore.endsWith target ".js" = false -> JsMore.endsWith target ".py" = false ->
  connectToServer_target new_URL open platform target c w =
  (Some "Server must be .js or .py file for local mode", set_mode single c, w).
Proof.
  intros Hremote Hjs Hpy.
  unfold connectToServer_target, server_launch, script_launch, script_params.
  by rewrite Hremote, Hjs, Hpy.
Qed.

(** X12: an [http://] or [https://] target is opened as a remote server
    whatever the server type, the platform and the environment; in
    particular the github type then needs no token. *)
Theorem remote_target_any_type (platform : string) (process_env : gmap string string)
    (serverType target : string) :
  is_remote target = true ->
  multi_launch new_URL platform process_env serverType (Some target) =
  match new_URL target with
  | inl message => inl message
  | inr baseUrl => inr (Remote baseUrl)
  end.
Proof.
  intros Hremote. unfold multi_launch.
  rewrite (remote_truthy _ Hremote). simpl. by rewrite Hremote.
Qed.

(** X13: the github server type without a remote target needs a non-empty
    [GITHUB_TOKEN]: otherwise nothing is opened, the world is untouched and
    the client only has its mode set to multi. *)
Theorem github_requires_token (platform : string) (process_env : gmap string string)
    (target : option string) c w :
  JsMore.truthy target && is_remote (default EmptyString target) = false ->
  JsMore.truthy (process_env !! "GITHUB_TOKEN") = false ->
  connectToMultipleServers_target new_URL open platform process_env "github" target c w =
  (Some "GITHUB_TOKEN environment variable is required for GitHub server",
   set_mode multi c, w).
Proof.
  intros Hremote Htoken. unfold connectToMultipleServers_target, multi_launch.
  rewrite Hremote. simpl. by rewrite Htoken.
Qed.

(** X14: with a token, the github server is started through [npx] with the
    token as [GITHUB_PERSONAL_ACCESS_TOKEN], overriding any inherited value;
    every other variable of the process environment is passed on as is. *)
Theorem github_environment (platform : string) (process_env : gmap string string)
    (target : option string) (token : string) :
  JsMore.truthy target && is_remote (default EmptyString target) = false ->
  process_env !! "GITHUB_TOKEN" = Some token -> token <> EmptyString ->
  exists child_env,
    multi_launch new_URL platform process_env "github" target =
    inr (Local {| command := "npx";
                  args := ["@modelcontextprotocol/server-github"];
                  env := Some child_env |}) /\
    child_env !! "GITHUB_PERSONAL_ACCESS_TOKEN" = Some token /\
    forall k : string, k <> "GITHUB_PERSONAL_ACCESS_TOKEN" ->
                       child_env !! k = process_env !! k.
Proof.
  intros Hremote Htoken Hne. unfold multi_launch.
  rewrite Hremote, Htoken. simpl.
  destruct token as [|a token]; [done |]. simpl.
  eexists. split; [reflexivity |]. split.
  - apply lookup_union_Some_l. by rewrite lookup_singleton_eq.
  - intros k Hk. rewrite lookup_union_r; [done |].
    by rewrite lookup_singleton_ne.
Qed.

(** X15: the single-server client has no remote mode: a remote target that
    does not end in [.js] or [.py] is rejected by it, while the multi-server
    client's [connectToServer] opens it as a remote server. *)
Theorem remote_target_two_clients (platform target : string) :
  is_remote target = true ->
  JsMore.endsWith target ".js" = false -> JsMore.endsWith target ".py" = false ->
  simple_launch platform target = inl "Server script must be a .js or .py file" /\
  server_launch new_URL platform target =
  match new_URL target with
  | inl message => inl message
  | inr baseUrl => inr (Remote baseUrl)
  end.
Proof.
  intros Hremote Hjs Hpy. split.
  - unfold simple_launch, script_params. by rewrite Hjs, Hpy.
  - unfold server_launch. by rewrite Hremote.
Qed.

End LaunchFacts.

(** ** The history summary *)

Section HistoryFacts.

Context {Json World : Type}.
Implicit Types (c : @MCPClient Json World) (history : list (@MessageParam Json)).

Import JsFacts.

Lemma take_all (n : nat) (s : string) :
  (String.length s <= n)%nat -> Js.take n s = s.
Proof.
  revert n. induction s as [|a s IH]; intros [|n] H; simpl in *; try done; try lia.
  rewrite IH; [done | lia].
Qed.

Lemma take_min (n : nat) (s : string) :
  Js.take (Nat.min n (String.length s)) s = Js.take n s.
Proof.
  revert n. induction s as [|a s IH]; intros [|n]; simpl; try done.
  by rewrite IH.
Qed.

Lemma length_take (n : nat) (s : string) :
  String.length (Js.take n s) = Nat.min n (String.length s).
Proof.
  revert n. induction s as [|a s IH]; intros [|n]; simpl; try done.
  by rewrite IH.
Qed.

Lemma substring_from_start (s : string) (n : nat) :
  Js.substring s 0 (Z.of_nat n) = Js.take n s.
Proof.
  unfold Js.substring, Js.clamp. rewrite Nat2Z.id.
  change (Z.to_nat 0) with 0%nat.
  rewrite Nat.min_0_l, Nat.max_0_l, Nat.sub_0_r. simpl. apply take_min.
Qed.

(** X16: the preview of a text of at most 50 characters is the text itself;
    a longer text is cut to its first 50 characters followed by ["..."], 53
    characters in all. *)
Theorem preview_spec (text : string) :
  ((String.length text <= 50)%nat -> preview text = text) /\
  ((50 < String.length text)%nat ->
   preview text = Js.take 50 text +:+ "..." /\
   String.length (preview text) = 53%nat).
Proof.
  unfold preview.
  replace (Js.substring text 0 50) with (Js.take 50 text)
    by (symmetry; exact (substring_from_start text 50)).
  split; intros H.
  - destruct (Nat.ltb_spec 50 (String.length text)); [lia |].
    by rewrite append_nil_r, take_all.
  - destruct (Nat.ltb_spec 50 (String.length text)); [| lia].
    split; [done |]. rewrite length_append, length_take.
    rewrite Nat.min_l by lia. reflexivity.
Qed.

Lemma contentPreview_displayable (msg : @MessageParam Json) :
  msg_content msg <> Blocks [] <-> is_Some (contentPreview msg).
Proof.
  unfold contentPreview.
  destruct (msg_content msg) as [s|[|[id n a|id t e] bs]]; split;
    intros H; try done; try by eexists.
Qed.

Lemma summary_lines_threw (index : nat) history :
  (summary_lines index history).2 = false <-> displayable history.
Proof.
  unfold displayable. revert index.
  induction history as [|msg rest IH]; intros index; simpl.
  - split; [constructor | done].
  - rewrite Forall_cons, contentPreview_displayable.
    destruct (contentPreview msg) as [p|] eqn:E.
    + specialize (IH (S index)).
      destruct (summary_lines (S index) rest) as [lines threw]. simpl in *.
      rewrite IH. split; [intros ?; split; [by eexists | done] | tauto].
    + simpl. split; [done | intros [[? ?] _]; done].
Qed.

Lemma summary_lines_length (index : nat) history :
  displayable history ->
  length (summary_lines index history).1 = length history.
Proof.
  unfold displayable. revert index.
  induction history as [|msg rest IH]; intros index H; [done |].
  apply Forall_cons in H as [Hmsg Hrest].
  apply contentPreview_displayable in Hmsg as [p Hp]. simpl. rewrite Hp.
  specialize (IH (S index) Hrest).
  destruct (summary_lines (S index) rest) as [lines threw]. simpl in *.
  by rewrite IH.
Qed.

Lemma summary_lines_lookup (index i : nat) history (msg : @MessageParam Json) :
  displayable history -> history !! i = Some msg ->
  exists text,
    contentPreview msg = Some text /\
    (summary_lines index history).1 !! i =
    Some (JsMore.show_nat (index + i + 1) +:+ ". " +:+ role_label (role msg)
          +:+ ": " +:+ text).
Proof.
  unfold displayable. revert index i.
  induction history as [|first rest IH]; intros index i H Hi; [done |].
  apply Forall_cons in H as [Hfirst Hrest].
  apply contentPreview_displayable in Hfirst as [p Hp]. simpl. rewrite Hp.
  destruct i as [|i].
  - injection Hi as <-. exists p. split; [done |].
    destruct (summary_lines (S index) rest) as [lines threw]. simpl.
    by rewrite Nat.add_0_r.
  - simpl in Hi. destruct (IH (S index) i Hrest Hi) as (text & Htext & Hline).
    exists text. split; [done |].
    destruct (summary_lines (S index) rest) as [lines threw]. simpl in *.
    rewrite Hline. do 3 f_equal. lia.
Qed.

(** X17: [showHistorySummary] completes without throwing exactly when no
    turn of the history has an empty content array. For an empty history it
    prints the header and "No history yet."; otherwise the header and one
    line per turn, in order: the turn's number from 1, "User" or "Assistant",
    and the preview of a text, "Tool Call: " with the tool's name, or
    "Tool Result". *)
Theorem summary_of_displayable c :
  ((showHistorySummary c).2 = false <-> displayable (conversationHistory c)) /\
  (displayable (conversationHistory c) ->
   length (showHistorySummary c).1 =
   S (Nat.max 1 (length (conversationHistory c)))) /\
  (conversationHistory c = [] ->
   showHistorySummary c =
   ([nl +:+ "Conversation History (Summary):"; "No history yet."], false)) /\
  (displayable (conversationHistory c) -> conversationHistory c <> [] ->
   exists lines,
     showHistorySummary c =
       ((nl +:+ "Conversation History (Summary):") :: lines, false) /\
     length lines = length (conversationHistory c) /\
     forall (i : nat) (msg : @MessageParam Json),
       conversationHistory c !! i = Some msg ->
       exists text,
         lines !! i =
           Some (JsMore.show_nat (i + 1) +:+ ". " +:+
                 (match role msg with user => "User" | assistant => "Assistant" end)
                 +:+ ": " +:+ text) /\
         match msg_content msg with
         | Text s => text = preview s
         | Blocks (tool_use _ toolName _ :: _) => text = "Tool Call: " +:+ toolName
         | Blocks (tool_result _ _ _ :: _) => text = "Tool Result"
         | Blocks [] => False
         end).
Proof.
  unfold showHistorySummary.
  destruct (conversationHistory c) as [|first rest] eqn:E.
  - simpl. split; [split; [constructor | done] |]. by repeat split.
  - change (length (first :: rest) =? 0)%nat with false. cbv iota.
    pose proof (summary_lines_threw 0 (first :: rest)) as Hthrew.
    pose proof (summary_lines_length 0 (first :: rest)) as Hlen.
    pose proof (fun i msg => summary_lines_lookup 0 i (first :: rest) msg) as Hline.
    destruct (summary_lines 0 (first :: rest)) as [lines threw].
    split; [exact Hthrew |]. split; [| split; [done |]].
    + intros H. simpl in *. rewrite (Hlen H). lia.
    + intros H _. exists lines. simpl in *.
      apply Hthrew in H as Hok. rewrite Hok. split; [done |].
      split; [by apply Hlen |]. intros i msg Hi.
      destruct (Hline i msg H Hi) as (text & Htext & Hlookup).
      exists text. split; [exact Hlookup |].
      unfold contentPreview in Htext.
      destruct (msg_content msg) as [s|[|[id toolName a|id t e] bs]];
        by try injection Htext as <-.
Qed.

End HistoryFacts.

(** ** What a query does to the client *)

Section QueryFacts.

Context {Json World : Type} (JSON_stringify : Json -> string).
Context (messages_create :
  list (@MessageParam Json) -> option (list (@Tool Json)) -> World ->
  (string + list (@ContentBlock Json)) * World).
Implicit Types (c : @MCPClient Json World) (f : @Frame Json World).
Implicit Types (block : @ContentBlock Json) (response : list (@ContentBlock Json)).
Implicit Types (w : World) (args : Json).

Abbreviation handle_content := (handle_content JSON_stringify).
Abbreviation for_content := (for_content JSON_stringify).
Abbreviation while_loop := (while_loop JSON_stringify messages_create).
Abbreviation processQuery := (processQuery JSON_stringify messages_create).
Abbreviation chatLoop_body := (chatLoop_body JSON_stringify messages_create).
Abbreviation chatLoop := (chatLoop JSON_stringify messages_create).

(** An invariant of the rounds' steps holds when the loop is left. *)
Lemma while_loop_invariant (I : @Frame Json World -> Prop) :
  (forall w f, I f -> I (enter_round w f)) ->
  (forall block f, I f -> I (handle_content block f)) ->
  (forall f, I f -> I (add_notice f)) ->
  forall (fuel : nat) f r, while_loop fuel f = Some r -> I f -> I (frame_of r).
Proof.
  intros Henter Hblock Hnotice.
  assert (forall response f, I f -> I (for_content response f)) as Hfor.
  { induction response as [|block rest IH]; intros f Hf; [done |].
    simpl. by apply IH, Hblock. }
  induction fuel as [|fuel IH]; intros f r; simpl;
    destruct (iteration f <? maxIterations)%nat; try done;
    try (intros [= <-]; done).
  destruct (messages_create _ _ _) as [[message|response] w].
  - intros [= <-] Hf. by apply Henter.
  - set (f1 := for_content response (enter_round w f)).
    destruct (negb (toolUseDetected f1)).
    + intros [= <-] Hf. by apply Hfor, Henter.
    + intros Hr Hf. apply (IH _ _ Hr).
      destruct (iteration f1 =? maxIterations)%nat;
        [apply Hnotice |]; by apply Hfor, Henter.
Qed.

(** The turns a block appends are the three kinds the loop writes. *)
Lemma handle_content_appends (P : @MessageParam Json -> Prop) block f :
  (forall text, P (assistant_text text)) ->
  (forall id toolName args, P (assistant_tool_use id toolName args)) ->
  (forall id text is_error, P (user_tool_result id text is_error)) ->
  exists turns,
    conversationHistory (this (handle_content block f)) =
    conversationHistory (this f) ++ turns /\ Forall P turns.
Proof.
  intros Htext Huse Hresult.
  destruct block as [text|id toolName args|]; simpl.
  - eexists. split; [done |]. by repeat constructor.
  - destruct (findToolByName _ _) as [[|a s]|];
      try (eexists; split; [done |]; by repeat constructor).
    destruct (callTool _ _ _ _) as [[message|result] w]; simpl;
      rewrite <- app_assoc; eexists; (split; [done |]); by repeat constructor.
  - exists []. by rewrite app_nil_r.
Qed.

Lemma handle_content_registry block f :
  allTools (this (handle_content block f)) = allTools (this f) /\
  mcpClients (this (handle_content block f)) = mcpClients (this f) /\
  transports (this (handle_content block f)) = transports (this f) /\
  mode (this (handle_content block f)) = mode (this f).
Proof.
  destruct block as [text|id toolName args|]; simpl; try done.
  destruct (findToolByName _ _) as [[|a s]|]; try done.
  by destruct (callTool _ _ _ _) as [[message|result] w].
Qed.

(** X18: whatever the model answers and the tools do, [processQuery] leaves
    the catalog, the clients, the transports and the mode as they were, and
    only appends to the history: the earlier turns stay, followed by the
    query's user turn and the turns of this query. *)
Theorem processQuery_only_appends (query text : string) c c' w w' :
  processQuery query c w = Some (text, c', w') ->
  allTools c' = allTools c /\
  mcpClients c' = mcpClients c /\
  transports c' = transports c /\
  mode c' = mode c /\
  exists turns,
    conversationHistory c' = conversationHistory c ++ user_text query :: turns.
Proof.
  unfold processQuery.
  destruct (while_loop maxIterations (start_frame query c w)) as [r|] eqn:Hr;
    [| done].
  pose proof (while_loop_invariant
    (fun f => allTools (this f) = allTools c /\
              mcpClients (this f) = mcpClients c /\
              transports (this f) = transports c /\
              mode (this f) = mode c /\
              exists turns, conversationHistory (this f) =
                            conversationHistory c ++ user_text query :: turns))
    as Hinv.
  intros Hret.
  assert (this (frame_of r) = c') as <- by (destruct r; simpl; congruence).
  apply (Hinv) with (fuel := maxIterations) (f := start_frame query c w);
    try done.
  - intros block f (H1 & H2 & H3 & H4 & turns & H5).
    destruct (handle_content_registry block f) as (-> & -> & -> & ->).
    destruct (handle_content_appends (fun _ => True) block f) as (more & -> & _);
      try done.
    repeat split; try done. exists (turns ++ more).
    by rewrite H5, <- app_assoc.
  - simpl. repeat split; try done. by exists [].
Qed.

Lemma handle_content_displayable block f :
  displayable (conversationHistory (this f)) ->
  displayable (conversationHistory (this (handle_content block f))).
Proof.
  intros H.
  destruct (handle_content_appends (fun msg => msg_content msg <> Blocks []) block f)
    as (turns & -> & Hturns); try done.
  by apply Forall_app.
Qed.

Lemma processQuery_displayable (query text : string) c c' w w' :
  processQuery query c w = Some (text, c', w') ->
  displayable (conversationHistory c) -> displayable (conversationHistory c').
Proof.
  unfold processQuery.
  destruct (while_loop maxIterations (start_frame query c w)) as [r|] eqn:Hr;
    [| done].
  intros Hret Hc.
  assert (this (frame_of r) = c') as <- by (destruct r; simpl; congruence).
  apply (while_loop_invariant
           (fun f => displayable (conversationHistory (this f))))
    with (fuel := maxIterations) (f := start_frame query c w); try done.
  - intros block f. apply handle_content_displayable.
  - simpl. apply Forall_app. split; [done |]. by repeat constructor.
Qed.

Lemma chatLoop_body_displayable (message : string) (ctl : Control) c c' w w' :
  chatLoop_body message c w = Some (ctl, c', w') ->
  displayable (conversationHistory c) -> displayable (conversationHistory c').
Proof.
  unfold chatLoop_body. intros H Hc.
  repeat match type of H with
         | context [String.eqb ?a ?b] => destruct (String.eqb a b)
         | context [(showHistorySummary ?x).2] => destruct (showHistorySummary x).2
         end;
    try (injection H as <- <- <-; first [done | constructor]).
  destruct (processQuery message c w) as [[[text c1] w1]|] eqn:E; [| done].
  injection H as <- <- <-. by eapply processQuery_displayable.
Qed.

(** X19: a chat session never makes the history undisplayable: if no turn has
    an empty content array before, none has after any sequence of lines, so
    the [history] command cannot throw in a session that starts with an
    empty history. *)
Theorem chat_keeps_history_displayable (lines : list string) (ctl : Control)
    c c' w w' :
  chatLoop lines c w = Some (ctl, c', w') ->
  displayable (conversationHistory c) -> displayable (conversationHistory c').
Proof.
  revert c w. induction lines as [|message rest IH]; intros c w; simpl.
  - by intros [= <- <- <-].
  - destruct (chatLoop_body message c w) as [[[[| |] c1] w1]|] eqn:E; [| | | done].
    + intros [= <- <- <-]. by eapply chatLoop_body_displayable.
    + intros Hrest Hc. apply (IH _ _ Hrest).
      by eapply chatLoop_body_displayable.
    + intros [= <- <- <-]. by eapply chatLoop_body_displayable.
Qed.

Lemma handle_content_outcome block f :
  exists turns,
    conversationHistory (this (handle_content block f)) =
    conversationHistory (this f) ++ turns /\
    flat_map outcome_ids turns = tool_use_ids [block].
Proof.
  destruct block as [text|id toolName args|]; simpl.
  - by eexists.
  - destruct (findToolByName _ _) as [[|a s]|]; try by eexists.
    destruct (callTool _ _ _ _) as [[message|result] w]; simpl;
      rewrite <- app_assoc; by eexists.
  - exists []. by rewrite app_nil_r.
Qed.

(** X20: processing a response appends, for each of its [tool_use] blocks in
    order, exactly one [tool_result] turn carrying that block's id, whether
    the name resolved, the call succeeded or it failed; no other outcome is
    written. *)
Theorem one_outcome_per_request response f :
  exists turns,
    conversationHistory (this (for_content response f)) =
    conversationHistory (this f) ++ turns /\
    flat_map outcome_ids turns = tool_use_ids response.
Proof.
  revert f. induction response as [|block rest IH]; intros f.
  - exists []. by rewrite app_nil_r.
  - simpl. destruct (IH (handle_content block f)) as (turns2 & -> & H2).
    destruct (handle_content_outcome block f) as (turns1 & -> & H1).
    exists (turns1 ++ turns2). split; [by rewrite app_assoc |].
    rewrite flat_map_app, H1, H2. unfold tool_use_ids. simpl.
    by rewrite app_nil_r.
Qed.

(** X21: a catalog entry whose effective name ends with the separator, or is
    empty, has the empty string as its last segment, which the flexible
    strategy finds in every requested name: with such an entry the resolver
    never answers [undefined]. *)
Theorem trailing_separator_catches_all c (tool : @Tool Json) (baseName : string) :
  In tool (allTools c) ->
  final_segment (name tool) EmptyString ->
  findToolByName c baseName <> None.
Proof.
  intros Hin Hseg Hnone.
  apply (findToolByName_none_inv c _ tool) in Hnone as (_ & _ & Hflex); [| done].
  apply final_segment_pop in Hseg. unfold flexible_pred in Hflex.
  rewrite Hseg in Hflex. simpl in Hflex.
  by rewrite includes_empty, orb_true_r in Hflex.
Qed.

(** X22: a catalog entry with the empty effective name can never be called:
    requested by its name, it is resolved and then taken for "not found", so
    no provider is called, the world is untouched and the request gets the
    error outcome. *)
Theorem empty_named_tool_never_called f (tool : @Tool Json) (id : string) args :
  In tool (allTools (this f)) -> name tool = EmptyString ->
  world (handle_content (ToolUseBlock id EmptyString args) f) = world f /\
  conversationHistory (this (handle_content (ToolUseBlock id EmptyString args) f)) =
  conversationHistory (this f) ++
  [user_tool_result id ("Error: Tool " +:+ EmptyString +:+ " not found") (Some true)].
Proof.
  intros Hin Hname.
  destruct (find_exact_name (this f) tool Hin) as (m & Hfind & Hm).
  rewrite Hname in Hfind, Hm. simpl. unfold findToolByName.
  by rewrite Hfind, Hm.
Qed.

(** *** The chat loop *)

(** X23: a line that reads [quit] in any letter case ends the chat loop
    there: it calls nothing and changes neither the client nor the world, and
    whatever is typed after it has no effect. The session ends in the state
    the lines before it led to (or had already ended, if one of them did). *)
Theorem quit_ends_chat (before more : list string) (quit_line : string) c w :
  Js.toLowerCase quit_line = "quit" ->
  chatLoop (before ++ quit_line :: more) c w =
  match chatLoop before c w with
  | Some (Continue, c', w') => Some (Break, c', w')
  | ended => ended
  end.
Proof.
  intros Hquit. revert c w. induction before as [|message rest IH]; intros c w.
  - simpl. unfold chatLoop_body. by rewrite Hquit.
  - simpl. destruct (chatLoop_body message c w) as [[[[| |] c1] w1]|];
      [done | apply IH | done | done].
Qed.

(** X24: after [clear] nothing of the earlier conversation is left to
    influence the session: two clients that differ only in their history
    behave identically on every sequence of lines that starts with
    [clear]. *)
Theorem clear_forgets_conversation (clear_line : string) (lines : list string)
    c1 c2 w :
  Js.toLowerCase clear_line = "clear" ->
  allTools c1 = allTools c2 -> mcpClients c1 = mcpClients c2 ->
  transports c1 = transports c2 -> mode c1 = mode c2 ->
  chatLoop (clear_line :: lines) c1 w = chatLoop (clear_line :: lines) c2 w.
Proof.
  intros Hclear Htools Hclients Htransports Hmode. simpl.
  unfold chatLoop_body. rewrite Hclear. simpl.
  replace (set_conversationHistory [] c1) with (set_conversationHistory [] c2);
    [done |].
  unfold set_conversationHistory. by rewrite Htools, Hclients, Htransports, Hmode.
Qed.

End QueryFacts.

(** ** The single-server client *)

Section SimpleFacts.

Context {Json World : Type} (JSON_stringify : Json -> string).
Context (messages_create :
  list (@MessageParam Json) -> option (list (@Tool Json)) -> World ->
  (string + list (@ContentBlock Json)) * World).
Implicit Types (f : @Frame Json World) (fs : @Simple.Frame Json World).
Implicit Types (block : @ContentBlock Json) (response : list (@ContentBlock Json)).
Implicit Types (w : World) (args : Json).

Abbreviation s_handle := (Simple.handle_content JSON_stringify).
Abbreviation s_for := (Simple.for_content JSON_stringify).
Abbreviation s_while := (Simple.while_loop JSON_stringify messages_create).
Abbreviation s_query := (Simple.processQuery JSON_stringify messages_create).
Abbreviation s_history fs := (Simple.conversationHistory (Simple.this fs)).

Local Ltac cap_lia := unfold maxIterations in *; simpl in *; lia.

(** X25: in the single-server client every [tool_use] block is recorded
    before its tool is called. If all calls of a response succeed, each
    request turn is followed by its outcome; if a call is rejected, processing
    stops there: the history ends with that request, without an outcome, and
    the blocks after it are not looked at. *)
Theorem simple_requests_recorded response fs :
  match s_for response fs with
  | Simple.Ok fs' =>
      exists turns,
        s_history fs' = s_history fs ++ turns /\
        flat_map request_ids turns = tool_use_ids response /\
        flat_map outcome_ids turns = tool_use_ids response
  | Simple.Raise message fs' =>
      exists turns before (id toolName : string) args after,
        response = before ++ ToolUseBlock id toolName args :: after /\
        s_history fs' =
          s_history fs ++ turns ++ [assistant_tool_use id toolName args] /\
        flat_map request_ids turns = tool_use_ids before /\
        flat_map outcome_ids turns = tool_use_ids before
  end.
Proof.
  revert fs. induction response as [|block rest IH]; intros fs.
  - simpl. exists []. by rewrite app_nil_r.
  - simpl. destruct block as [text|id toolName args|]; simpl.
    + specialize (IH {| Simple.finalResponse := Simple.finalResponse fs +:+ text +:+ nl;
                        Simple.iteration := Simple.iteration fs;
                        Simple.toolUseDetected := Simple.toolUseDetected fs;
                        Simple.this := Simple.push (assistant_text text) (Simple.this fs);
                        Simple.world := Simple.world fs |}).
      destruct (s_for rest _) as [fs'|message fs'].
      * destruct IH as (turns & -> & H1 & H2). simpl.
        exists (assistant_text text :: turns).
        by rewrite <- app_assoc.
      * destruct IH as (turns & before & id & toolName & args & after
                        & -> & -> & H1 & H2). simpl.
        exists (assistant_text text :: turns), (TextBlock text :: before),
          id, toolName, args, after.
        by rewrite <- !app_assoc.
    + destruct (client_callTool _ _ _ _) as [[message|result] w].
      * exists [], [], id, toolName, args, rest. done.
      * match goal with |- context [s_for rest ?x] => specialize (IH x) end.
        destruct (s_for rest _) as [fs'|message fs'].
        -- destruct IH as (turns & -> & H1 & H2). simpl.
           eexists (_ :: _ :: turns). rewrite <- !app_assoc. simpl.
           split; [done |]. unfold tool_use_ids in *. simpl.
           by rewrite H1, H2.
        -- destruct IH as (turns & before & id' & toolName' & args' & after
                           & -> & -> & H1 & H2). simpl.
           eexists (_ :: _ :: turns), (ToolUseBlock id toolName args :: before),
             id', toolName', args', after.
           rewrite <- !app_assoc. simpl.
           split; [done |]. split; [done |]. unfold tool_use_ids in *. simpl.
           by rewrite H1, H2.
    + specialize (IH fs). destruct (s_for rest fs) as [fs'|message fs'].
      * done.
      * destruct IH as (turns & before & id & toolName & args & after
                        & -> & -> & H1 & H2).
        by exists turns, (OtherBlock :: before), id, toolName, args, after.
Qed.

Lemma simple_handle_iteration block fs :
  match s_handle block fs with
  | Simple.Ok fs' | Simple.Raise _ fs' =>
      Simple.iteration fs' = Simple.iteration fs
  end.
Proof.
  destruct block as [text|id toolName args|]; simpl; try done.
  by destruct (client_callTool _ _ _ _) as [[message|result] w].
Qed.

Lemma simple_handle_tools block fs :
  match s_handle block fs with
  | Simple.Ok fs' | Simple.Raise _ fs' =>
      Simple.tools (Simple.this fs') = Simple.tools (Simple.this fs)
  end.
Proof.
  destruct block as [text|id toolName args|]; simpl; try done.
  by destruct (client_callTool _ _ _ _) as [[message|result] w].
Qed.

Lemma simple_for_iteration response fs :
  match s_for response fs with
  | Simple.Ok fs' | Simple.Raise _ fs' =>
      Simple.iteration fs' = Simple.iteration fs
  end.
Proof.
  revert fs. induction response as [|block rest IH]; intros fs; [done |].
  simpl. pose proof (simple_handle_iteration block fs) as Hb.
  destruct (s_handle block fs) as [fs1|message fs1]; [| done].
  specialize (IH fs1). destruct (s_for rest fs1); congruence.
Qed.

Lemma simple_while_total (fuel : nat) fs :
  (maxIterations - Simple.iteration fs <= fuel)%nat ->
  exists r, s_while fuel fs = Some r /\
            forall fuel', (fuel <= fuel')%nat -> s_while fuel' fs = Some r.
Proof.
  revert fs. induction fuel as [|fuel IH]; intros fs Hfuel.
  - exists (Simple.Finished fs).
    assert (forall k, s_while k fs = Some (Simple.Finished fs)) as H.
    { intros [|k]; simpl;
        by destruct (Nat.ltb_spec (Simple.iteration fs) maxIterations); [cap_lia |]. }
    split; [apply H | intros; apply H].
  - destruct (Nat.ltb_spec (Simple.iteration fs) maxIterations) as [Hlt|Hge].
    + simpl. destruct (Nat.ltb_spec (Simple.iteration fs) maxIterations);
        [| cap_lia].
      destruct (messages_create _ _ _) as [[message|response] w] eqn:Hcall.
      * eexists. split; [done |]. intros [|fuel'] Hle; [lia |]. simpl.
        destruct (Nat.ltb_spec (Simple.iteration fs) maxIterations); [| cap_lia].
        by rewrite Hcall.
      * pose proof (simple_for_iteration response (Simple.enter_round w fs)) as Hit.
        destruct (s_for response (Simple.enter_round w fs)) as [f1|message f1] eqn:Hfor.
        -- destruct (negb (Simple.toolUseDetected f1)) eqn:Hdet.
           ++ eexists. split; [done |]. intros [|fuel'] Hle; [lia |]. simpl.
              destruct (Nat.ltb_spec (Simple.iteration fs) maxIterations);
                [| cap_lia].
              by rewrite Hcall, Hfor, Hdet.
           ++ set (f2 := if (Simple.iteration f1 =? maxIterations)%nat
                         then Simple.add_notice f1 else f1).
              assert (Simple.iteration f2 = S (Simple.iteration fs)) as Hit2.
              { subst f2. by destruct (_ =? _)%nat. }
              destruct (IH f2) as (r & Hr & Hmono); [cap_lia |].
              exists r. split; [done |]. intros [|fuel'] Hle; [lia |]. simpl.
              destruct (Nat.ltb_spec (Simple.iteration fs) maxIterations);
                [| cap_lia].
              rewrite Hcall, Hfor, Hdet. apply Hmono. lia.
        -- eexists. split; [done |]. intros [|fuel'] Hle; [lia |]. simpl.
           destruct (Nat.ltb_spec (Simple.iteration fs) maxIterations); [| cap_lia].
           by rewrite Hcall, Hfor.
    + exists (Simple.Finished fs).
      assert (forall k, s_while k fs = Some (Simple.Finished fs)) as H.
      { intros [|k]; simpl;
          by destruct (Nat.ltb_spec (Simple.iteration fs) maxIterations); [cap_lia |]. }
      split; [apply H | intros; apply H].
Qed.

Lemma simple_while_iteration (fuel : nat) fs r :
  s_while fuel fs = Some r ->
  (Simple.iteration fs <= maxIterations)%nat ->
  (Simple.iteration (Simple.frame_of r) <= maxIterations)%nat.
Proof.
  revert fs. induction fuel as [|fuel IH]; intros fs; simpl;
    destruct (Nat.ltb_spec (Simple.iteration fs) maxIterations) as [Hlt|Hge];
    try done; try (intros [= <-]; done).
  destruct (messages_create _ _ _) as [[message|response] w].
  - intros [= <-] _. cap_lia.
  - pose proof (simple_for_iteration response (Simple.enter_round w fs)) as Hit.
    destruct (s_for response (Simple.enter_round w fs)) as [f1|message f1].
    + destruct (negb (Simple.toolUseDetected f1)).
      * intros [= <-] _. cap_lia.
      * intros Hr _. apply (IH _ Hr).
        destruct (Simple.iteration f1 =? maxIterations)%nat; cap_lia.
    + intros [= <-] _. cap_lia.
Qed.

(** X26: the single-server client's [processQuery] always returns, after at
    most three rounds, whatever the model and the server do: with the final
    answer, or with the apology text when the model call or a tool call was
    rejected. *)
Theorem simple_query_bounded (query : string) (c : @Simple.MCPClient Json World) w :
  exists r,
    (forall fuel, (maxIterations <= fuel)%nat ->
       s_while fuel (Simple.start_frame query c w) = Some r) /\
    (Simple.iteration (Simple.frame_of r) <= maxIterations)%nat /\
    s_query query c w =
    Some (match r with
          | Simple.Finished fs => Simple.finalResponse fs
          | Simple.Threw message _ => "Sorry, I encountered an error: " +:+ message
          end, Simple.this (Simple.frame_of r), Simple.world (Simple.frame_of r)).
Proof.
  destruct (simple_while_total maxIterations (Simple.start_frame query c w))
    as (r & Hr & Hmono); [cap_lia |].
  exists r. split; [exact Hmono |]. split.
  - apply (simple_while_iteration _ _ _ Hr). cap_lia.
  - unfold Simple.processQuery. rewrite Hr. by destruct r.
Qed.

Lemma findToolByName_same_catalog (c1 c2 : @MCPClient Json World) (baseName : string) :
  allTools c1 = allTools c2 -> findToolByName c1 baseName = findToolByName c2 baseName.
Proof. intros H. unfold findToolByName. by rewrite H. Qed.

Lemma same_frame_handle block f fs fs' :
  same_frame f fs ->
  (forall id toolName args, block = ToolUseBlock id toolName args ->
     toolName <> EmptyString /\ In toolName (map name (allTools (this f)))) ->
  s_handle block fs = Simple.Ok fs' ->
  same_frame (handle_content JSON_stringify block f) fs'.
Proof.
  intros (H1 & H2 & H3 & H4 & H5 & H6 & H7 & H8) Hnames.
  destruct block as [text|id toolName args|]; simpl.
  - intros [= <-]. unfold same_frame. simpl.
    by rewrite H1, H2, H3, H4, H5, H6.
  - destruct (Hnames id toolName args eq_refl) as [Hne Hin].
    apply in_map_iff in Hin as (tool & <- & Hin).
    destruct (find_exact_name (this f) tool Hin) as (m & Hfind & Hm).
    unfold findToolByName. rewrite Hfind, Hm.
    destruct (name tool) as [|a s] eqn:Hname; [done |].
    unfold callTool. simpl. rewrite H7, H8, H4.
    destruct (client_callTool _ _ _ _) as [[message|result] w]; [done |].
    intros [= <-]. unfold same_frame. simpl.
    by rewrite H1, H2, H5, H6.
  - by intros [= <-].
Qed.

(** X27: connected to one server in single mode, the multi-server client
    processes a response exactly as the single-server client does, as long as
    every requested tool name is a non-empty name of the catalog and no tool
    call is rejected: buffer, counters, history and world stay the same in
    both. *)
Theorem single_mode_agrees response f fs fs' :
  same_frame f fs ->
  (forall id toolName args, In (ToolUseBlock id toolName args) response ->
     toolName <> EmptyString /\ In toolName (map name (allTools (this f)))) ->
  s_for response fs = Simple.Ok fs' ->
  same_frame (for_content JSON_stringify response f) fs'.
Proof.
  revert f fs. induction response as [|block rest IH]; intros f fs Hsame Hnames.
  - by intros [= <-].
  - simpl. destruct (s_handle block fs) as [fs1|message fs1] eqn:Hb; [| done].
    intros Hrest.
    assert (same_frame (handle_content JSON_stringify block f) fs1) as Hsame1.
    { eapply same_frame_handle; [done | | done].
      intros id toolName args ->. apply (Hnames id toolName args). by left. }
    apply (IH _ _ Hsame1); [| done].
    intros id toolName args Hin.
    destruct (Hnames id toolName args) as [Hne Hcat]; [by right |].
    split; [done |].
    destruct Hsame as (_ & _ & _ & _ & _ & H6 & _).
    destruct Hsame1 as (_ & _ & _ & _ & _ & H6' & _).
    pose proof (simple_handle_tools block fs) as Ht. rewrite Hb in Ht.
    by rewrite H6', Ht, <- H6.
Qed.

End SimpleFacts.

(** ** The added properties on concrete inputs *)

Module MoreRuns.

Import Demo Cases.

Local Ltac each_tool H :=
  repeat (destruct H as [<-|H]; [done |]); destruct H.

Lemma exact_match_wins_witness :
  findToolByName two_servers "filesystem_read_file" = Some "filesystem_read_file".
Proof.
  apply (exact_match_wins two_servers (tool "filesystem_read_file")).
  right. by left.
Defined.

Lemma resolved_name_in_catalog_witness :
  exists t : @Tool Json,
    In t (allTools two_servers) /\ name t = "filesystem_write_file" /\
    (exact_pred "read_file" t = true \/ suffix_pred "read_file" t = true \/
     flexible_pred "read_file" t = true).
Proof. by apply (resolved_name_in_catalog two_servers "read_file"). Defined.

Lemma strategies_in_catalog_order_witness :
  findToolByName (catalog ["a_x_read"; "fs_read"]) "read" = Some "a_x_read" /\
  findToolByName (catalog ["fs_write_file"; "gh_write"]) "writ" = Some "fs_write_file".
Proof.
  split.
  - destruct (strategies_in_catalog_order (catalog ["a_x_read"; "fs_read"]) "read"
                [] [tool "fs_read"] (tool "a_x_read")) as [Hsuffix _];
      [done | intros t Ht; each_tool Ht |].
    apply Hsuffix; [done |]. intros t Ht. each_tool Ht.
  - destruct (strategies_in_catalog_order (catalog ["fs_write_file"; "gh_write"])
                "writ" [] [tool "gh_write"] (tool "fs_write_file")) as [_ Hflexible];
      [done | intros t Ht; each_tool Ht |].
    apply Hflexible; [| done |]; intros t Ht; each_tool Ht.
Defined.

Lemma empty_name_resolves_witness :
  exists n, findToolByName two_servers EmptyString = Some n /\
            n = "filesystem_write_file".
Proof.
  destruct (empty_name_resolves two_servers (tool "filesystem_write_file")
              [tool "filesystem_read_file"; tool "github_create_repository"]
              eq_refl) as (n & Hn & Hfirst).
  exists n. split; [done |]. apply Hfirst.
  intros t Ht. each_tool Ht.
Defined.

Lemma registered_provider_dispatch_witness :
  callTool two_servers ("github" +:+ sep_s +:+ "not_listed") "{}" 5%nat =
  (inr {| content := inl "ok not_listed" |}, 5%nat).
Proof.
  unfold two_servers.
  rewrite (registered_provider_dispatch _ _ "github" echo stdio
             (map listed ["create_repository"])); try done.
  - repeat (constructor; [simpl; intuition discriminate |]). constructor.
  - right. by left.
Defined.

Lemma reconnect_replaces_client_witness :
  callTool
    (connectToMultipleServers "fs" (inr (refusing, stdio, []))
       (connectToMultipleServers "fs" (inr (provider ["read"])) new_MCPClient).2).2
    ("fs" +:+ sep_s +:+ "read") "{}" 0%nat = (inl "refused read", 1%nat).
Proof.
  destruct (reconnect_replaces_client "fs" echo refusing stdio stdio
              (map listed ["read"]) [] new_MCPClient) as [_ Hcall].
  by rewrite Hcall.
Defined.

Lemma script_command_witness :
  script_params "no" "linux" "server.js" None =
    inr {| command := "node"; args := ["server.js"]; env := None |} /\
  script_params "no" "win32" "tools/server.py" None =
    inr {| command := "python"; args := ["tools/server.py"]; env := None |} /\
  script_params "no" "linux" "server.rb" None = inl "no".
Proof.
  split; [| split].
  - by apply (script_command "no" "linux" "server.js" None).
  - by apply (script_command "no" "win32" "tools/server.py" None).
  - by apply (script_command "no" "linux" "server.rb" None).
Defined.

Lemma local_target_rejected_witness :
  connectToServer_target url (opens ["ping"]) "linux" "server.rb" two_servers 4%nat =
  (Some "Server must be .js or .py file for local mode",
   set_mode single two_servers, 4%nat).
Proof. by apply local_target_rejected. Defined.

Lemma remote_target_any_type_witness :
  multi_launch url "linux" ∅ "github" (Some "https://example.org/sse") =
  inr (Remote "https://example.org/sse").
Proof. by rewrite remote_target_any_type. Defined.

Lemma github_requires_token_witness :
  connectToMultipleServers_target url (opens ["create_repository"]) "linux"
    {["GITHUB_TOKEN" := EmptyString]} "github" None two_servers 4%nat =
  (Some "GITHUB_TOKEN environment variable is required for GitHub server",
   set_mode multi two_servers, 4%nat).
Proof. by apply github_requires_token. Defined.

Lemma github_environment_witness :
  exists child_env : gmap string string,
    multi_launch url "linux" path_env "github" (Some "ignored.js") =
    inr (Local {| command := "npx";
                  args := ["@modelcontextprotocol/server-github"];
                  env := Some child_env |}) /\
    child_env !! "GITHUB_PERSONAL_ACCESS_TOKEN" = Some "ghp_example" /\
    child_env !! "PATH" = Some "/usr/bin".
Proof.
  destruct (github_environment url "linux" path_env (Some "ignored.js")
              "ghp_example") as (child_env & Hlaunch & Htoken & Hrest); try done.
  exists child_env. split; [done |]. split; [done |].
  by rewrite Hrest.
Defined.

Lemma remote_target_two_clients_witness :
  simple_launch "linux" "https://example.org/sse" =
    inl "Server script must be a .js or .py file" /\
  server_launch url "linux" "https://example.org/sse" =
    inr (Remote "https://example.org/sse").
Proof. by apply (remote_target_two_clients url). Defined.

Lemma preview_spec_witness :
  preview "hello" = "hello" /\
  preview long_text =
    "01234567890123456789012345678901234567890123456789..." /\
  String.length (preview long_text) = 53%nat.
Proof.
  split.
  { destruct (preview_spec "hello") as [H _]. apply H. simpl. lia. }
  destruct (preview_spec long_text) as [_ H].
  destruct H as [Hcut Hlen]; [vm_compute; lia |].
  split; [by rewrite Hcut | done].
Defined.

Lemma summary_of_displayable_witness :
  let c := set_conversationHistory
             [user_text "hi"; assistant_tool_use "t1" "read" "{}";
              user_tool_result "t1" "ok read" None] two_servers in
  (showHistorySummary c).2 = false /\
  length (showHistorySummary c).1 = 4%nat /\
  showHistorySummary two_servers =
    ([nl +:+ "Conversation History (Summary):"; "No history yet."], false) /\
  exists lines,
    showHistorySummary c = ((nl +:+ "Conversation History (Summary):") :: lines, false) /\
    lines !! 1%nat = Some "2. Assistant: Tool Call: read" /\
    lines = ["1. User: hi"; "2. Assistant: Tool Call: read"; "3. User: Tool Result"].
Proof.
  intros c.
  destruct (summary_of_displayable c) as (Hthrew & Hlength & _ & Hlines).
  destruct (summary_of_displayable two_servers) as (_ & _ & Hempty & _).
  assert (displayable (conversationHistory c)) as Hd by (by repeat constructor).
  split; [by apply Hthrew |]. split; [by rewrite Hlength |].
  split; [by apply Hempty |].
  destruct (Hlines Hd) as (lines & Hshow & Hcount & Hline); [done |].
  exists lines. split; [exact Hshow |].
  destruct (Hline 1%nat (assistant_tool_use "t1" "read" "{}") eq_refl)
    as (text & Hlookup & ->).
  split; [exact Hlookup |].
  injection Hshow as <-. reflexivity.
Defined.

Lemma processQuery_only_appends_witness :
  match processQuery stringify (scripted unknown_tool_script) "hi"
          (push (user_text "earlier") two_servers) 0%nat with
  | Some (_, c', _) =>
      allTools c' = allTools two_servers /\
      exists turns, conversationHistory c' =
                    [user_text "earlier"] ++ user_text "hi" :: turns
  | None => False
  end.
Proof.
  destruct (processQuery stringify (scripted unknown_tool_script) "hi"
              (push (user_text "earlier") two_servers) 0%nat)
    as [[[text c'] w']|] eqn:E; [| by vm_compute in E].
  apply processQuery_only_appends in E as (H1 & _ & _ & _ & H5). by split.
Defined.

Lemma chat_keeps_history_displayable_witness :
  match chatLoop stringify (scripted persistent_script) ["hello"; "history"; "again"]
          two_servers 0%nat with
  | Some (_, c', _) => displayable (conversationHistory c')
  | None => False
  end.
Proof.
  destruct (chatLoop stringify (scripted persistent_script)
              ["hello"; "history"; "again"] two_servers 0%nat)
    as [[[ctl c'] w']|] eqn:E; [| by vm_compute in E].
  apply chat_keeps_history_displayable in E; [done | constructor].
Defined.

Lemma trailing_separator_catches_all_witness :
  findToolByName (catalog ["fs_read"; "debug_"]) "delete_universe" <> None.
Proof.
  apply (trailing_separator_catches_all _ (tool "debug_")).
  - right. by left.
  - split; [done |]. right. by exists "debug".
Defined.

Lemma empty_named_tool_never_called_witness :
  world (handle_content stringify (ToolUseBlock "t1" EmptyString "{}")
           (frame (single_client [EmptyString]))) = 1%nat /\
  conversationHistory
    (this (handle_content stringify (ToolUseBlock "t1" EmptyString "{}")
             (frame (single_client [EmptyString])))) =
  [user_tool_result "t1" "Error: Tool  not found" (Some true)].
Proof.
  by apply (empty_named_tool_never_called stringify
              (frame (single_client [EmptyString])) (tool EmptyString)); [left |].
Defined.

Lemma quit_ends_chat_witness :
  chatLoop stringify (scripted persistent_script) (["tools"] ++ "Quit" :: ["hello"])
    two_servers 0%nat = Some (Break, two_servers, 0%nat) /\
  chatLoop stringify (scripted persistent_script) (["tools"] ++ "hello" :: [])
    two_servers 0%nat <> Some (Continue, two_servers, 0%nat).
Proof.
  split; [by rewrite quit_ends_chat |]. by vm_compute.
Defined.

Lemma clear_forgets_conversation_witness :
  chatLoop stringify (scripted unknown_tool_script) ["CLEAR"; "hi"]
    (push (user_text "earlier") two_servers) 0%nat =
  chatLoop stringify (scripted unknown_tool_script) ["CLEAR"; "hi"]
    two_servers 0%nat.
Proof. by apply clear_forgets_conversation. Defined.

Lemma simple_requests_recorded_witness :
  exists turns before (id toolName : string) args after,
    [TextBlock "one moment"; asks "t1" "read"; TextBlock "never"] =
      before ++ ToolUseBlock id toolName args :: after /\
    [user_text "hi"; assistant_text "one moment";
     assistant_tool_use "t1" "read" "{}"] =
      [user_text "hi"] ++ turns ++ [assistant_tool_use id toolName args] /\
    flat_map request_ids turns = tool_use_ids before /\
    flat_map outcome_ids turns = tool_use_ids before.
Proof.
  exact (simple_requests_recorded stringify
           [TextBlock "one moment"; asks "t1" "read"; TextBlock "never"]
           (Simple.start_frame "hi" (simple_client refusing ["read"]) 0%nat)).
Defined.

Lemma single_mode_agrees_witness :
  same_frame
    (for_content stringify [TextBlock "one moment"; asks "t1" "ping"]
       (start_frame "hi" (single_client ["ping"]) 0%nat))
    {| Simple.finalResponse := "one moment" +:+ nl +:+ "[Used tool: ping]" +:+ nl;
       Simple.iteration := 0; Simple.toolUseDetected := true;
       Simple.this :=
         Simple.push (user_tool_result "t1" "ok ping" None)
           (Simple.push (assistant_tool_use "t1" "ping" "{}")
              (Simple.push (assistant_text "one moment")
                 (Simple.push (user_text "hi") (simple_client echo ["ping"]))));
       Simple.world := 0%nat |}.
Proof.
  apply (single_mode_agrees stringify _ _
           (Simple.start_frame "hi" (simple_client echo ["ping"]) 0%nat)).
  - by repeat split.
  - intros id toolName args Hin.
    repeat (destruct Hin as [Hin|Hin]; [try discriminate Hin |]); [| destruct Hin].
    injection Hin as <- <- <-. split; [done | by left].
  - reflexivity.
Defined.

End MoreRuns.
